(** * ElectionFactory.sol: a shallow embedding of the e-voting contracts

    The two contracts of [contracts/ElectionFactory.sol] ([ElectionFactory]
    and [Election]) are embedded as state transformers over their storage.
    Solidity 0.8 semantics are written out: [uint256] values are integers
    with checked arithmetic (an overflow aborts with [Panic 0x11]), a
    [mapping] is a finite map read with the zero value as default, a failed
    [require] aborts the call with its reason string, and an aborted call
    leaves no trace in storage.  A [uint256] or an [address] is an integer
    of its range; the statements below hold of every integer.  Gas and the
    size of memory are outside the model, but for the length check of an
    array allocation ([Panic 0x41] above [2^64 - 1] elements): the one loop
    of the contract is given the number of rounds it can need, and is proved
    never to exceed it. *)

From stdpp Require Import gmap strings list.
From Stdlib Require Import ZArith Lia.

Local Open Scope Z_scope.

(** * The contracts *)

(** ** Solidity runtime: results, checked arithmetic, the contract monad *)

Abbreviation address := Z (only parsing).
Abbreviation uint256 := Z (only parsing).

Definition MAX_UINT256 : Z := 2 ^ 256 - 1.

(** How a call ends: it returns, a [require] fails with its reason, a
    compiler-inserted check fails with its panic code, or a loop exceeds the
    rounds it was given. *)
Inductive Result (A : Type) : Type :=
  | Ok (a : A)
  | Revert (reason : string)
  | Panic (code : Z)
  | OutOfGas.
Arguments Ok {A} a.
Arguments Revert {A} reason.
Arguments Panic {A} code.
Arguments OutOfGas {A}.

(** Panic codes of the Solidity compiler. *)
Definition PANIC_ARITHMETIC : Z := 17.    (* 0x11 *)
Definition PANIC_ARRAY_BOUNDS : Z := 50.  (* 0x32 *)
Definition PANIC_ALLOCATION : Z := 65.    (* 0x41 *)

(** The largest length [new T[](n)] accepts. *)
Definition MAX_ARRAY_LENGTH : Z := 2 ^ 64 - 1.

Definition checked_add (a b : uint256) : Result uint256 :=
  if bool_decide (a + b ≤ MAX_UINT256) then Ok (a + b) else Panic PANIC_ARITHMETIC.

Definition checked_sub (a b : uint256) : Result uint256 :=
  if bool_decide (b ≤ a) then Ok (a - b) else Panic PANIC_ARITHMETIC.

(** Reading [m[k]] of a Solidity mapping: absent keys hold the zero value. *)
Definition mapping_get `{Countable K} {V : Type} (zero : V) (m : gmap K V) (k : K) : V :=
  default zero (m !! k).

(** The execution context of a call: [msg.sender] and [block.timestamp]. *)
Record Ctx : Type := { msg_sender : address; block_timestamp : uint256 }.

Section ContractMonad.
Context {Ev St : Type}.

(** A call reads the context, reads and writes storage [St], emits events
    [Ev], and either returns or aborts. *)
Definition Contract (A : Type) : Type := Ctx → St → Result (A * St * list Ev).

Definition creturn {A} (a : A) : Contract A := λ _ s, Ok (a, s, []).

Definition cbind {A B} (m : Contract A) (f : A → Contract B) : Contract B :=
  λ ctx s,
    match m ctx s with
    | Ok (a, s1, ev1) =>
        match f a ctx s1 with
        | Ok (b, s2, ev2) => Ok (b, s2, ev1 ++ ev2)
        | Revert r => Revert r
        | Panic c => Panic c
        | OutOfGas => OutOfGas
        end
    | Revert r => Revert r
    | Panic c => Panic c
    | OutOfGas => OutOfGas
    end.

Definition require (cond : bool) (reason : string) : Contract unit :=
  λ _ s, if cond then Ok (tt, s, []) else Revert reason.

Definition sload {A} (field : St → A) : Contract A := λ _ s, Ok (field s, s, []).

Definition sstore {A} (set : A → St → St) (v : A) : Contract unit :=
  λ _ s, Ok (tt, set v s, []).

Definition emit (e : Ev) : Contract unit := λ _ s, Ok (tt, s, [e]).

Definition sender : Contract address := λ ctx s, Ok (msg_sender ctx, s, []).

Definition timestamp : Contract uint256 := λ ctx s, Ok (block_timestamp ctx, s, []).

Definition lift {A} (r : Result A) : Contract A :=
  λ _ s,
    match r with
    | Ok a => Ok (a, s, [])
    | Revert r => Revert r
    | Panic c => Panic c
    | OutOfGas => OutOfGas
    end.
End ContractMonad.

Arguments Contract : clear implicits.

Notation "'do' x <- m ; k" := (cbind m (λ x, k))
  (at level 10, x name, m at level 100, k at level 200, only parsing).
Notation "'exec' m ; k" := (cbind m (λ _, k))
  (at level 10, m at level 100, k at level 200, only parsing).

(** ** The [Election] contract: storage *)

Inductive Phase : Type := Created | Registration | Voting | Ended.

#[global] Instance Phase_eq_dec : EqDecision Phase.
Proof. solve_decision. Defined.

Record Candidate : Type := { id : uint256; name : string; voteCount : uint256 }.

Definition zeroCandidate : Candidate := {| id := 0; name := ""; voteCount := 0 |}.

Inductive Event : Type :=
  | PhaseChanged (newPhase : Phase)
  | CandidateAdded (candidateId : uint256) (name : string)
  | VoterRegistered (voter : address)
  | VoteCast (voter : address) (candidateId : uint256)
  | ElectionEnded.

Record Election : Type := {
  admin : address;
  title : string;
  description : string;
  phase : Phase;
  registrationStart : uint256;
  registrationEnd : uint256;
  votingStart : uint256;
  votingEnd : uint256;
  candidatesCount : uint256;
  candidates : gmap Z Candidate;
  isRegisteredVoter : gmap Z bool;
  hasVoted : gmap Z bool
}.

(** Storage before the constructor runs: every slot holds its zero value. *)
Definition zeroElection : Election :=
  {| admin := 0; title := ""; description := ""; phase := Created;
     registrationStart := 0; registrationEnd := 0; votingStart := 0; votingEnd := 0;
     candidatesCount := 0; candidates := ∅; isRegisteredVoter := ∅; hasVoted := ∅ |}.

Definition set_admin (v : address) (s : Election) : Election :=
  {| admin := v; title := title s; description := description s; phase := phase s;
     registrationStart := registrationStart s; registrationEnd := registrationEnd s;
     votingStart := votingStart s; votingEnd := votingEnd s;
     candidatesCount := candidatesCount s; candidates := candidates s;
     isRegisteredVoter := isRegisteredVoter s; hasVoted := hasVoted s |}.

Definition set_title (v : string) (s : Election) : Election :=
  {| admin := admin s; title := v; description := description s; phase := phase s;
     registrationStart := registrationStart s; registrationEnd := registrationEnd s;
     votingStart := votingStart s; votingEnd := votingEnd s;
     candidatesCount := candidatesCount s; candidates := candidates s;
     isRegisteredVoter := isRegisteredVoter s; hasVoted := hasVoted s |}.

Definition set_description (v : string) (s : Election) : Election :=
  {| admin := admin s; title := title s; description := v; phase := phase s;
     registrationStart := registrationStart s; registrationEnd := registrationEnd s;
     votingStart := votingStart s; votingEnd := votingEnd s;
     candidatesCount := candidatesCount s; candidates := candidates s;
     isRegisteredVoter := isRegisteredVoter s; hasVoted := hasVoted s |}.

Definition set_phase (v : Phase) (s : Election) : Election :=
  {| admin := admin s; title := title s; description := description s; phase := v;
     registrationStart := registrationStart s; registrationEnd := registrationEnd s;
     votingStart := votingStart s; votingEnd := votingEnd s;
     candidatesCount := candidatesCount s; candidates := candidates s;
     isRegisteredVoter := isRegisteredVoter s; hasVoted := hasVoted s |}.

Definition set_registrationStart (v : uint256) (s : Election) : Election :=
  {| admin := admin s; title := title s; description := description s; phase := phase s;
     registrationStart := v; registrationEnd := registrationEnd s;
     votingStart := votingStart s; votingEnd := votingEnd s;
     candidatesCount := candidatesCount s; candidates := candidates s;
     isRegisteredVoter := isRegisteredVoter s; hasVoted := hasVoted s |}.

Definition set_registrationEnd (v : uint256) (s : Election) : Election :=
  {| admin := admin s; title := title s; description := description s; phase := phase s;
     registrationStart := registrationStart s; registrationEnd := v;
     votingStart := votingStart s; votingEnd := votingEnd s;
     candidatesCount := candidatesCount s; candidates := candidates s;
     isRegisteredVoter := isRegisteredVoter s; hasVoted := hasVoted s |}.

Definition set_votingStart (v : uint256) (s : Election) : Election :=
  {| admin := admin s; title := title s; description := description s; phase := phase s;
     registrationStart := registrationStart s; registrationEnd := registrationEnd s;
     votingStart := v; votingEnd := votingEnd s;
     candidatesCount := candidatesCount s; candidates := candidates s;
     isRegisteredVoter := isRegisteredVoter s; hasVoted := hasVoted s |}.

Definition set_votingEnd (v : uint256) (s : Election) : Election :=
  {| admin := admin s; title := title s; description := description s; phase := phase s;
     registrationStart := registrationStart s; registrationEnd := registrationEnd s;
     votingStart := votingStart s; votingEnd := v;
     candidatesCount := candidatesCount s; candidates := candidates s;
     isRegisteredVoter := isRegisteredVoter s; hasVoted := hasVoted s |}.

Definition set_candidatesCount (v : uint256) (s : Election) : Election :=
  {| admin := admin s; title := title s; description := description s; phase := phase s;
     registrationStart := registrationStart s; registrationEnd := registrationEnd s;
     votingStart := votingStart s; votingEnd := votingEnd s;
     candidatesCount := v; candidates := candidates s;
     isRegisteredVoter := isRegisteredVoter s; hasVoted := hasVoted s |}.

Definition set_candidates (v : gmap Z Candidate) (s : Election) : Election :=
  {| admin := admin s; title := title s; description := description s; phase := phase s;
     registrationStart := registrationStart s; registrationEnd := registrationEnd s;
     votingStart := votingStart s; votingEnd := votingEnd s;
     candidatesCount := candidatesCount s; candidates := v;
     isRegisteredVoter := isRegisteredVoter s; hasVoted := hasVoted s |}.

Definition set_isRegisteredVoter (v : gmap Z bool) (s : Election) : Election :=
  {| admin := admin s; title := title s; description := description s; phase := phase s;
     registrationStart := registrationStart s; registrationEnd := registrationEnd s;
     votingStart := votingStart s; votingEnd := votingEnd s;
     candidatesCount := candidatesCount s; candidates := candidates s;
     isRegisteredVoter := v; hasVoted := hasVoted s |}.

Definition set_hasVoted (v : gmap Z bool) (s : Election) : Election :=
  {| admin := admin s; title := title s; description := description s; phase := phase s;
     registrationStart := registrationStart s; registrationEnd := registrationEnd s;
     votingStart := votingStart s; votingEnd := votingEnd s;
     candidatesCount := candidatesCount s; candidates := candidates s;
     isRegisteredVoter := isRegisteredVoter s; hasVoted := v |}.

(** [candidates[i]], [isRegisteredVoter[a]] and [hasVoted[a]] as the code reads them. *)
Definition candidate (s : Election) (i : uint256) : Candidate :=
  mapping_get zeroCandidate (candidates s) i.

Definition registered (s : Election) (a : address) : bool :=
  mapping_get false (isRegisteredVoter s) a.

Definition voted (s : Election) (a : address) : bool :=
  mapping_get false (hasVoted s) a.

(** ** The [Election] contract: code *)

Abbreviation ElectionCall := (Contract Event Election).

(** [modifier onlyAdmin] *)
Definition onlyAdmin {A} (body : ElectionCall A) : ElectionCall A :=
  do caller <- sender;
  do a <- sload admin;
  exec require (bool_decide (caller = a)) "Only admin";
  body.

(** [modifier inPhase(Phase _phase)] *)
Definition inPhase {A} (_phase : Phase) (body : ElectionCall A) : ElectionCall A :=
  do p <- sload phase;
  exec require (bool_decide (p = _phase)) "Invalid phase";
  body.

Definition constructor (_admin : address) (_title _description : string)
    (_registrationDuration _votingDuration : uint256) : ElectionCall unit :=
  exec sstore set_admin _admin;
  exec sstore set_title _title;
  exec sstore set_description _description;
  exec sstore set_phase Created;
  do now <- timestamp;
  exec sstore set_registrationStart now;
  do rs <- sload registrationStart;
  do re <- lift (checked_add rs _registrationDuration);
  exec sstore set_registrationEnd re;
  do re' <- sload registrationEnd;
  exec sstore set_votingStart re';
  do vs <- sload votingStart;
  do ve <- lift (checked_add vs _votingDuration);
  sstore set_votingEnd ve.

Definition addCandidate (_name : string) : ElectionCall unit :=
  onlyAdmin (inPhase Created (
    exec require (bool_decide (0 < Z.of_nat (String.length _name))) "Name required";
    do n <- sload candidatesCount;
    do n1 <- lift (checked_add n 1);
    exec sstore set_candidatesCount n1;
    do k <- sload candidatesCount;
    do cs <- sload candidates;
    exec sstore set_candidates (<[k := {| id := k; name := _name; voteCount := 0 |}]> cs);
    do k' <- sload candidatesCount;
    emit (CandidateAdded k' _name))).

Definition startRegistration : ElectionCall unit :=
  onlyAdmin (
    do p <- sload phase;
    exec require (bool_decide (p = Created)) "Already started";
    exec sstore set_phase Registration;
    do p' <- sload phase;
    emit (PhaseChanged p')).

Definition startVoting : ElectionCall unit :=
  onlyAdmin (
    do p <- sload phase;
    exec require (bool_decide (p = Registration)) "Must be in registration";
    do n <- sload candidatesCount;
    exec require (bool_decide (0 < n)) "No candidates";
    exec sstore set_phase Voting;
    do p' <- sload phase;
    emit (PhaseChanged p')).

Definition endElection : ElectionCall unit :=
  onlyAdmin (
    do p <- sload phase;
    exec require (bool_decide (p = Voting)) "Must be in voting";
    exec sstore set_phase Ended;
    do p' <- sload phase;
    exec emit (PhaseChanged p');
    emit ElectionEnded).

Definition registerVoter : ElectionCall unit :=
  inPhase Registration (
    do now <- timestamp;
    do rs <- sload registrationStart;
    do re <- sload registrationEnd;
    exec require (bool_decide (rs ≤ now) && bool_decide (now ≤ re)) "Registration window closed";
    do caller <- sender;
    do r <- sload (λ s, registered s caller);
    exec require (negb r) "Already registered";
    do m <- sload isRegisteredVoter;
    exec sstore set_isRegisteredVoter (<[caller := true]> m);
    emit (VoterRegistered caller)).

Definition vote (_candidateId : uint256) : ElectionCall unit :=
  inPhase Voting (
    do now <- timestamp;
    do vs <- sload votingStart;
    do ve <- sload votingEnd;
    exec require (bool_decide (vs ≤ now) && bool_decide (now ≤ ve)) "Voting window closed";
    do caller <- sender;
    do r <- sload (λ s, registered s caller);
    exec require r "Not registered voter";
    do v <- sload (λ s, voted s caller);
    exec require (negb v) "Already voted";
    do n <- sload candidatesCount;
    exec require (bool_decide (0 < _candidateId) && bool_decide (_candidateId ≤ n)) "Invalid candidate";
    do hv <- sload hasVoted;
    exec sstore set_hasVoted (<[caller := true]> hv);
    do c <- sload (λ s, candidate s _candidateId);
    do vc <- lift (checked_add (voteCount c) 1);
    do cs <- sload candidates;
    exec sstore set_candidates
      (<[_candidateId := {| id := id c; name := name c; voteCount := vc |}]> cs);
    emit (VoteCast caller _candidateId)).

(** *** Read helpers *)

Definition getCandidate (_id : uint256) : ElectionCall Candidate :=
  sload (λ s, candidate s _id).

(** [new T[](n)]: a memory array of [n] zero values; a length above
    [2^64 - 1] aborts. *)
Definition new_array {A} (zero : A) (n : uint256) : Result (list A) :=
  if bool_decide (n ≤ MAX_ARRAY_LENGTH)
  then Ok (replicate (Z.to_nat n) zero)
  else Panic PANIC_ALLOCATION.

(** [list[i] = v] on a memory array: an index past the end aborts. *)
Definition array_set {A} (arr : list A) (i : uint256) (v : A) : Result (list A) :=
  if bool_decide (0 ≤ i < Z.of_nat (length arr))
  then Ok (<[Z.to_nat i := v]> arr)
  else Panic PANIC_ARRAY_BOUNDS.

(** The loop [for (uint256 i = 1; i <= candidatesCount; i++) list[i - 1] = candidates[i];].
    [gas] bounds the number of times the loop condition is evaluated. *)
Fixpoint getAllCandidates_loop (gas : nat) (s : Election) (i : uint256)
    (list_ : list Candidate) : Result (list Candidate) :=
  match gas with
  | O => OutOfGas
  | S gas' =>
      if bool_decide (i ≤ candidatesCount s) then
        match checked_sub i 1 with
        | Ok j =>
            match array_set list_ j (candidate s i) with
            | Ok list' =>
                match checked_add i 1 with
                | Ok i' => getAllCandidates_loop gas' s i' list'
                | Revert r => Revert r
                | Panic c => Panic c
                | OutOfGas => OutOfGas
                end
            | Revert r => Revert r
            | Panic c => Panic c
            | OutOfGas => OutOfGas
            end
        | Revert r => Revert r
        | Panic c => Panic c
        | OutOfGas => OutOfGas
        end
      else Ok list_
  end.

(** The condition of the loop is evaluated [candidatesCount + 1] times at most. *)
Definition getAllCandidates : ElectionCall (list Candidate) :=
  do n <- sload candidatesCount;
  do list_ <- lift (new_array zeroCandidate n);
  do s <- sload (λ s, s);
  lift (getAllCandidates_loop (S (Z.to_nat n)) s 1 list_).

Definition getPhase : ElectionCall Phase := sload phase.

Definition getTimeWindows : ElectionCall (uint256 * uint256 * uint256 * uint256) :=
  do rs <- sload registrationStart;
  do re <- sload registrationEnd;
  do vs <- sload votingStart;
  do ve <- sload votingEnd;
  creturn (rs, re, vs, ve).

(** ** The [ElectionFactory] contract *)

Inductive FactoryEvent : Type :=
  | ElectionCreated (electionId : uint256) (electionAddress admin : address) (title : string).

(** The factory's storage together with the contracts it has deployed. *)
Record Factory : Type := {
  electionCount : uint256;
  elections : gmap Z Z;
  deployed : gmap Z Election
}.

Definition zeroFactory : Factory :=
  {| electionCount := 0; elections := ∅; deployed := ∅ |}.

Definition set_electionCount (v : uint256) (f : Factory) : Factory :=
  {| electionCount := v; elections := elections f; deployed := deployed f |}.

Definition set_elections (v : gmap Z Z) (f : Factory) : Factory :=
  {| electionCount := electionCount f; elections := v; deployed := deployed f |}.

Definition set_deployed (v : gmap Z Election) (f : Factory) : Factory :=
  {| electionCount := electionCount f; elections := elections f; deployed := v |}.

Abbreviation FactoryCall := (Contract FactoryEvent Factory).

(** [new Election(...)]: runs the constructor on zeroed storage in the same
    block, and installs the result at the address [at_] the EVM assigns to
    the new contract.  The constructor never reads [msg.sender], which is the
    factory here; the admin is passed as an argument. *)
Definition new_Election (at_ : address) (_admin : address) (_title _description : string)
    (_registrationDuration _votingDuration : uint256) : FactoryCall address :=
  do now <- timestamp;
  do e <- lift
    match constructor _admin _title _description _registrationDuration _votingDuration
            {| msg_sender := 0; block_timestamp := now |} zeroElection with
    | Ok (_, e, _) => Ok e
    | Revert r => Revert r
    | Panic c => Panic c
    | OutOfGas => OutOfGas
    end;
  do d <- sload deployed;
  exec sstore set_deployed (<[at_ := e]> d);
  creturn at_.

Definition createElection (at_ : address) (_title _description : string)
    (_registrationDuration _votingDuration : uint256) : FactoryCall (uint256 * address) :=
  do caller <- sender;
  do election <- new_Election at_ caller _title _description
                   _registrationDuration _votingDuration;
  do n <- sload electionCount;
  do n1 <- lift (checked_add n 1);
  exec sstore set_electionCount n1;
  do k <- sload electionCount;
  do m <- sload elections;
  exec sstore set_elections (<[k := election]> m);
  do k' <- sload electionCount;
  exec emit (ElectionCreated k' election caller _title);
  do k'' <- sload electionCount;
  creturn (k'', election).

Definition getElectionAddress (_id : uint256) : FactoryCall address :=
  sload (λ f, mapping_get 0 (elections f) _id).

(** ** Transactions and reachable states *)

(** The state-changing entry points of an [Election]. *)
Inductive Call : Type :=
  | AddCandidate (_name : string)
  | StartRegistration
  | StartVoting
  | EndElection
  | RegisterVoter
  | Vote (_candidateId : uint256).

Definition dispatch (c : Call) : ElectionCall unit :=
  match c with
  | AddCandidate _name => addCandidate _name
  | StartRegistration => startRegistration
  | StartVoting => startVoting
  | EndElection => endElection
  | RegisterVoter => registerVoter
  | Vote _candidateId => vote _candidateId
  end.

Record Tx : Type := { tx_ctx : Ctx; tx_call : Call }.

Definition succeeds (s : Election) (tx : Tx) : bool :=
  match dispatch (tx_call tx) (tx_ctx tx) s with
  | Ok _ => true
  | _ => false
  end.

(** A transaction that aborts is rolled back: storage is what it was. *)
Definition transact (s : Election) (tx : Tx) : Election :=
  match dispatch (tx_call tx) (tx_ctx tx) s with
  | Ok (_, s', _) => s'
  | _ => s
  end.

Definition replay (s : Election) (txs : list Tx) : Election := foldl transact s txs.

(** The transactions of a history that went through, in order. *)
Fixpoint successful (s : Election) (txs : list Tx) : list Tx :=
  match txs with
  | [] => []
  | tx :: rest =>
      if succeeds s tx then tx :: successful (transact s tx) rest
      else successful s rest
  end.

(** Storage right after deployment. *)
Definition deployment (s : Election) : Prop :=
  ∃ ctx _admin _title _description _registrationDuration _votingDuration ev,
    constructor _admin _title _description _registrationDuration _votingDuration
      ctx zeroElection = Ok (tt, s, ev).

Inductive reachable : Election → Prop :=
  | reachable_deployment s : deployment s → reachable s
  | reachable_transact s tx : reachable s → reachable (transact s tx).

(** ** Failure kinds *)

Inductive ErrorKind : Type :=
  | InvalidInput | AccessDenied | InvalidPhase | WindowClosed | AlreadyRegistered
  | AlreadyVoted | InvalidCandidate | NoCandidates | NotRegistered | NotFound.

#[global] Instance ErrorKind_eq_dec : EqDecision ErrorKind.
Proof. solve_decision. Defined.

(** The reason strings of the contract's [require]s, by kind of failure. *)
Definition error_kind (reason : string) : option ErrorKind :=
  if decide (reason = "Only admin") then Some AccessDenied
  else if decide (reason = "Invalid phase") then Some InvalidPhase
  else if decide (reason = "Already started") then Some InvalidPhase
  else if decide (reason = "Must be in registration") then Some InvalidPhase
  else if decide (reason = "Must be in voting") then Some InvalidPhase
  else if decide (reason = "Name required") then Some InvalidInput
  else if decide (reason = "No candidates") then Some NoCandidates
  else if decide (reason = "Registration window closed") then Some WindowClosed
  else if decide (reason = "Voting window closed") then Some WindowClosed
  else if decide (reason = "Already registered") then Some AlreadyRegistered
  else if decide (reason = "Not registered voter") then Some NotRegistered
  else if decide (reason = "Already voted") then Some AlreadyVoted
  else if decide (reason = "Invalid candidate") then Some InvalidCandidate
  else None.

Definition failure {A} (r : Result A) : option ErrorKind :=
  match r with
  | Revert reason => error_kind reason
  | _ => None
  end.

Definition is_Ok {A} (r : Result A) : bool :=
  match r with Ok _ => true | _ => false end.

(** * Notions used in the statements *)

(** ** Storage after each successful call *)

(** [lo <= now && now <= hi], the test of both time windows and of the id range. *)
Definition in_window (lo hi now : uint256) : bool :=
  bool_decide (lo ≤ now) && bool_decide (now ≤ hi).

(** Storage after [vote]: the flag set, one more vote for the candidate. *)
Definition cast_vote (caller : address) (_candidateId : uint256) (s : Election) : Election :=
  let c := candidate s _candidateId in
  set_candidates
    (<[_candidateId := {| id := id c; name := name c; voteCount := voteCount c + 1 |}]>
       (candidates s))
    (set_hasVoted (<[caller := true]> (hasVoted s)) s).

(** Storage after [registerVoter]. *)
Definition register (caller : address) (s : Election) : Election :=
  set_isRegisteredVoter (<[caller := true]> (isRegisteredVoter s)) s.

(** Storage after [addCandidate]. *)
Definition push_candidate (_name : string) (s : Election) : Election :=
  let k := candidatesCount s + 1 in
  set_candidates (<[k := {| id := k; name := _name; voteCount := 0 |}]> (candidates s))
    (set_candidatesCount k s).

(** Storage after the constructor, run at block time [now]. *)
Definition initialElection (_admin : address) (_title _description : string)
    (_registrationDuration _votingDuration now : uint256) : Election :=
  {| admin := _admin; title := _title; description := _description; phase := Created;
     registrationStart := now;
     registrationEnd := now + _registrationDuration;
     votingStart := now + _registrationDuration;
     votingEnd := now + _registrationDuration + _votingDuration;
     candidatesCount := 0; candidates := ∅; isRegisteredVoter := ∅; hasVoted := ∅ |}.

(** Storage of the factory after a creation that went through. *)
Definition record_election (at_ : address) (e : Election) (f : Factory) : Factory :=
  {| electionCount := electionCount f + 1;
     elections := <[electionCount f + 1 := at_]> (elections f);
     deployed := <[at_ := e]> (deployed f) |}.

(** The creator-side transaction: an aborted creation is rolled back. *)
Definition create (at_ : address) (_title _description : string)
    (_registrationDuration _votingDuration : uint256) (ctx : Ctx) (f : Factory) : Factory :=
  match createElection at_ _title _description _registrationDuration _votingDuration ctx f with
  | Ok (_, f', _) => f'
  | _ => f
  end.

(** ** The transition relation of successful transactions *)

(** A transaction of [caller] in a block of time [now]. *)
Definition mkTx (caller : address) (now : uint256) (c : Call) : Tx :=
  {| tx_ctx := {| msg_sender := caller; block_timestamp := now |}; tx_call := c |}.

(** [step s tx s']: the call of [tx] passes all its checks in [s] and leaves [s']. *)
Inductive step (s : Election) : Tx → Election → Prop :=
  | step_addCandidate ctx _name :
      msg_sender ctx = admin s → phase s = Created → _name ≠ "" →
      candidatesCount s + 1 ≤ MAX_UINT256 →
      step s {| tx_ctx := ctx; tx_call := AddCandidate _name |} (push_candidate _name s)
  | step_startRegistration ctx :
      msg_sender ctx = admin s → phase s = Created →
      step s {| tx_ctx := ctx; tx_call := StartRegistration |} (set_phase Registration s)
  | step_startVoting ctx :
      msg_sender ctx = admin s → phase s = Registration → 0 < candidatesCount s →
      step s {| tx_ctx := ctx; tx_call := StartVoting |} (set_phase Voting s)
  | step_endElection ctx :
      msg_sender ctx = admin s → phase s = Voting →
      step s {| tx_ctx := ctx; tx_call := EndElection |} (set_phase Ended s)
  | step_registerVoter ctx :
      phase s = Registration →
      registrationStart s ≤ block_timestamp ctx ≤ registrationEnd s →
      registered s (msg_sender ctx) = false →
      step s {| tx_ctx := ctx; tx_call := RegisterVoter |} (register (msg_sender ctx) s)
  | step_vote ctx _candidateId :
      phase s = Voting →
      votingStart s ≤ block_timestamp ctx ≤ votingEnd s →
      registered s (msg_sender ctx) = true →
      voted s (msg_sender ctx) = false →
      1 ≤ _candidateId ≤ candidatesCount s →
      voteCount (candidate s _candidateId) + 1 ≤ MAX_UINT256 →
      step s {| tx_ctx := ctx; tx_call := Vote _candidateId |}
        (cast_vote (msg_sender ctx) _candidateId s).

(** ** Predicates on states and histories *)

(** The fields a vote leaves alone. *)
Definition same_settings (s s' : Election) : Prop :=
  admin s' = admin s ∧ title s' = title s ∧ description s' = description s ∧
  registrationStart s' = registrationStart s ∧ registrationEnd s' = registrationEnd s ∧
  votingStart s' = votingStart s ∧ votingEnd s' = votingEnd s.

(** What a change of phase leaves alone. *)
Definition same_ballots (s s' : Election) : Prop :=
  candidatesCount s' = candidatesCount s ∧ candidates s' = candidates s ∧
  isRegisteredVoter s' = isRegisteredVoter s ∧ hasVoted s' = hasVoted s.

Definition voters_registered (s : Election) : Prop :=
  ∀ a, voted s a = true → registered s a = true.

(** The successful registrations of a history, by caller and in order. *)
Definition registrants (txs : list Tx) : list address :=
  omap (λ tx, match tx_call tx with
              | RegisterVoter => Some (msg_sender (tx_ctx tx))
              | _ => None
              end) txs.

(** The candidates [1 .. candidatesCount], in that order. *)
Definition snapshot (s : Election) : list Candidate :=
  candidate s <$> seqZ 1 (candidatesCount s).

Definition ids_dense (s : Election) : Prop :=
  0 ≤ candidatesCount s ≤ MAX_UINT256 ∧
  (∀ i, 1 ≤ i ≤ candidatesCount s → is_Some (candidates s !! i) ∧ id (candidate s i) = i) ∧
  (∀ i, ¬ (1 ≤ i ≤ candidatesCount s) → candidates s !! i = None).

(** The names given to the successful [addCandidate] calls of a history. *)
Definition added_names (txs : list Tx) : list string :=
  omap (λ tx, match tx_call tx with
              | AddCandidate _name => Some _name
              | _ => None
              end) txs.

Definition sumZ (l : list Z) : Z := foldr Z.add 0 l.

(** The sum of all [voteCount]s. *)
Definition tally (s : Election) : Z := sumZ (voteCount <$> snapshot s).

(** The callers of the [vote] calls of a history, in order: all of them, and
    those whose vote targets candidate [c]. *)
Definition voter (tx : Tx) : option address :=
  match tx_call tx with
  | Vote _ => Some (msg_sender (tx_ctx tx))
  | _ => None
  end.

Definition voter_for (c : uint256) (tx : Tx) : option address :=
  match tx_call tx with
  | Vote i => if decide (i = c) then Some (msg_sender (tx_ctx tx)) else None
  | _ => None
  end.

Definition voters (txs : list Tx) : list address := omap voter txs.
Definition voters_for (c : uint256) (txs : list Tx) : list address := omap (voter_for c) txs.

Definition phase_rank (p : Phase) : Z :=
  match p with Created => 0 | Registration => 1 | Voting => 2 | Ended => 3 end.

#[global] Instance Call_eq_dec : EqDecision Call.
Proof. solve_decision. Defined.

(** How often a call occurs in a history. *)
Definition occurrences (c : Call) (txs : list Tx) : nat :=
  length (filter (λ tx, tx_call tx = c) txs).

(** The phase a transition leaves, if the call is a transition. *)
Definition transition_source (c : Call) : option Phase :=
  match c with
  | StartRegistration => Some Created
  | StartVoting => Some Registration
  | EndElection => Some Voting
  | _ => None
  end.

(** ** The create form of the front end ([frontend/js/app.js])

    The submit handler of [createElectionForm] reads the trimmed title and
    description and the two durations through [parseInt], and returns after an
    alert, without calling the factory, when its guard
    [!title || !desc || regDur <= 0 || votDur <= 0] holds. *)

(** What [parseInt] returns: an integer, or [NaN]. *)
Inductive JsNumber : Type := NaN | Num (n : Z).

(** [x <= 0]: a comparison with [NaN] is false. *)
Definition js_le_zero (x : JsNumber) : bool :=
  match x with
  | NaN => false
  | Num n => bool_decide (n ≤ 0)
  end.

(** [!str]: only the empty string is falsy. *)
Definition js_not (str : string) : bool := bool_decide (str = "").

Inductive FormAction : Type :=
  | Alert (message : string)
  | CallCreateElection (title desc : string) (regDur votDur : JsNumber).

Definition createElectionForm_submit (title desc : string) (regDur votDur : JsNumber)
    : FormAction :=
  if js_not title || js_not desc || js_le_zero regDur || js_le_zero votDur
  then Alert "Please fill all fields with valid values."
  else CallCreateElection title desc regDur votDur.

(** ** A sample history (the scenarios of the specification)

    Admin 1 deploys at time 0 with durations 100 and 200, adds Alice and Bob,
    opens registration; voters 2 and 4 register, 2 tries twice; the admin
    opens the vote at time 10; 2 votes for Alice at 150 and tries again, the
    unregistered 3 tries, 4 votes for a candidate 9 that does not exist; 5
    tries to end the election, then the admin ends it and tries to add Carol. *)

Definition sample_deployed : Election := initialElection 1 "Board" "Annual vote" 100 200 0.

Definition sample_history : list Tx :=
  [ mkTx 1 1 (AddCandidate "Alice"); mkTx 1 2 (AddCandidate "Bob");
    mkTx 1 3 StartRegistration;
    mkTx 2 5 RegisterVoter; mkTx 2 6 RegisterVoter; mkTx 4 7 RegisterVoter;
    mkTx 1 10 StartVoting;
    mkTx 2 150 (Vote 1); mkTx 2 151 (Vote 1); mkTx 3 152 (Vote 2); mkTx 4 153 (Vote 9);
    mkTx 5 160 EndElection; mkTx 1 161 EndElection;
    mkTx 1 162 (AddCandidate "Carol") ].

(** Scenario D: the sample history up to the moment the admin opens the
    vote, with two candidates and [registrationEnd = 100]. *)
Definition scenarioD_state : Election := replay sample_deployed (take 6 sample_history).

(** Scenario A: durations 100 and 200 at time 0 give the windows [[0,100]]
    and [[100,300]]. *)
Definition scenarioA : Prop :=
  ∃ f' ev e,
    createElection 4096 "Board" "Annual vote" 100 200
      {| msg_sender := 1; block_timestamp := 0 |} zeroFactory = Ok ((1, 4096), f', ev) ∧
    deployed f' !! 4096 = Some e ∧
    (registrationStart e, registrationEnd e) = (0, 100) ∧
    (votingStart e, votingEnd e) = (100, 300) ∧
    phase e = Created ∧ admin e = 1.

(** ** Clauses of the specification that the code does not meet *)

(** C4 as the specification words it: empty texts and non-positive durations
    are refused by [createElection] with InvalidInput. *)
Definition createElection_validates : Prop :=
  ∀ at_ _title _description _registrationDuration _votingDuration ctx f,
    _title = "" ∨ _description = "" ∨ _registrationDuration ≤ 0 ∨ _votingDuration ≤ 0 →
    failure (createElection at_ _title _description _registrationDuration
               _votingDuration ctx f) = Some InvalidInput ∧
    create at_ _title _description _registrationDuration _votingDuration ctx f = f.

(** C9 as the specification words it: an id outside [[1, candidatesCount]]
    makes [getCandidate] fail with InvalidCandidate. *)
Definition getCandidate_validates : Prop :=
  ∀ ctx s _id, reachable s → ¬ (1 ≤ _id ≤ candidatesCount s) →
    failure (getCandidate _id ctx s) = Some InvalidCandidate.

(** C2, the clause on the second vote as the specification words it: once a
    voter has voted, every further [vote] call of theirs fails with
    AlreadyVoted. *)
Definition second_vote_AlreadyVoted : Prop :=
  ∀ s0 txs ctx _candidateId,
    deployment s0 → voted (replay s0 txs) (msg_sender ctx) = true →
    failure (vote _candidateId ctx (replay s0 txs)) = Some AlreadyVoted.

(** C3, the clause on failures as the specification words it: outside its
    source phase each transition fails with InvalidPhase, whoever calls. *)
Definition wrong_phase_InvalidPhase : Prop :=
  ∀ ctx s,
    (phase s ≠ Created → failure (startRegistration ctx s) = Some InvalidPhase) ∧
    (phase s ≠ Registration → failure (startVoting ctx s) = Some InvalidPhase) ∧
    (phase s ≠ Voting → failure (endElection ctx s) = Some InvalidPhase).

(** * Further notions: event logs, factory histories, the front end's helpers *)

(** ** The event log of a history *)

(** The events a transaction leaves in the log: those of its call when it
    goes through, none when it aborts. *)
Definition events_of (s : Election) (tx : Tx) : list Event :=
  match dispatch (tx_call tx) (tx_ctx tx) s with
  | Ok (_, _, ev) => ev
  | _ => []
  end.

Fixpoint history_log (s : Election) (txs : list Tx) : list Event :=
  match txs with
  | [] => []
  | tx :: rest => events_of s tx ++ history_log (transact s tx) rest
  end.

(** The log read by kind of event, as a subscriber would. *)
Definition votes_cast (log : list Event) : list (address * uint256) :=
  omap (λ e, match e with VoteCast a c => Some (a, c) | _ => None end) log.

Definition candidates_added (log : list Event) : list (uint256 * string) :=
  omap (λ e, match e with CandidateAdded i n => Some (i, n) | _ => None end) log.

Definition voters_announced (log : list Event) : list address :=
  omap (λ e, match e with VoterRegistered a => Some a | _ => None end) log.

Definition phases_announced (log : list Event) : list Phase :=
  omap (λ e, match e with PhaseChanged p => Some p | _ => None end) log.

Definition ends_announced (log : list Event) : nat :=
  length (omap (λ e, match e with ElectionEnded => Some tt | _ => None end) log).

(** The [vote] calls of a history, by caller and target. *)
Definition vote_calls (txs : list Tx) : list (address * uint256) :=
  omap (λ tx, match tx_call tx with
              | Vote c => Some (msg_sender (tx_ctx tx), c)
              | _ => None
              end) txs.

(** The calls reserved to the admin ([onlyAdmin]). *)
Definition admin_only (c : Call) : bool :=
  match c with
  | AddCandidate _ | StartRegistration | StartVoting | EndElection => true
  | RegisterVoter | Vote _ => false
  end.

(** Nothing has been voted yet, and in [Created] nobody is registered. *)
Definition untouched_ballots (s : Election) : Prop :=
  (phase_rank (phase s) ≤ 1 →
     (∀ a, voted s a = false) ∧ (∀ c, voteCount (candidate s c) = 0)) ∧
  (phase s = Created → ∀ a, registered s a = false).

(** What a call announces when it goes through in state [s]. *)
Definition announcement (s : Election) (tx : Tx) : list Event :=
  let caller := msg_sender (tx_ctx tx) in
  match tx_call tx with
  | AddCandidate _name => [CandidateAdded (candidatesCount s + 1) _name]
  | StartRegistration => [PhaseChanged Registration]
  | StartVoting => [PhaseChanged Voting]
  | EndElection => [PhaseChanged Ended; ElectionEnded]
  | RegisterVoter => [VoterRegistered caller]
  | Vote c => [VoteCast caller c]
  end.

(** The phases in their order, and the stretch of them from [p] to [q]. *)
Definition all_phases : list Phase := [Created; Registration; Voting; Ended].

Definition phases_between (p q : Phase) : list Phase :=
  drop (Z.to_nat (phase_rank p)) (take (S (Z.to_nat (phase_rank q))) all_phases).

(** A candidate as [CandidateAdded] announces it. *)
Definition id_and_name (c : Candidate) : uint256 * string := (id c, name c).

(** ** Histories of the factory *)

(** A call of [createElection]: its context, the address the EVM gives the
    new contract, and the arguments. *)
Record Creation : Type := {
  cr_ctx : Ctx;
  cr_at : address;
  cr_title : string;
  cr_description : string;
  cr_registrationDuration : uint256;
  cr_votingDuration : uint256
}.

Definition creates (f : Factory) (c : Creation) : bool :=
  is_Ok (createElection (cr_at c) (cr_title c) (cr_description c)
           (cr_registrationDuration c) (cr_votingDuration c) (cr_ctx c) f).

Definition apply_creation (f : Factory) (c : Creation) : Factory :=
  create (cr_at c) (cr_title c) (cr_description c)
    (cr_registrationDuration c) (cr_votingDuration c) (cr_ctx c) f.

Definition replay_creations (f : Factory) (cs : list Creation) : Factory :=
  foldl apply_creation f cs.

(** The addresses of the creations that went through, in order. *)
Fixpoint created (f : Factory) (cs : list Creation) : list address :=
  match cs with
  | [] => []
  | c :: rest =>
      if creates f c then cr_at c :: created (apply_creation f c) rest
      else created f rest
  end.

(** The registry as a reader walks it, [elections(1)] to
    [elections(electionCount)]: the loop of [loadElections] in the front end. *)
Definition registry (f : Factory) : list address :=
  (λ i, mapping_get 0 (elections f) i) <$> seqZ 1 (electionCount f).

Definition registry_dense (f : Factory) : Prop :=
  0 ≤ electionCount f ≤ MAX_UINT256 ∧
  (∀ i, ¬ (1 ≤ i ≤ electionCount f) → elections f !! i = None) ∧
  (∀ a, a ∈ registry f → is_Some (deployed f !! a)).

(** ** The front end's helpers ([frontend/js/app.js]) *)

(** A [Phase] as the ABI returns it: the position of the constant in the
    [enum] declaration. *)
Definition Phase_to_uint8 (p : Phase) : Z :=
  match p with Created => 0 | Registration => 1 | Voting => 2 | Ended => 3 end.

(** [phaseName(p)]: a [switch] on the number, by strict equality.  The
    argument is [Number(phase)] of a [uint8], an integer. *)
Definition phaseName (p : JsNumber) : string :=
  match p with
  | Num 0 => "Created"
  | Num 1 => "Registration"
  | Num 2 => "Voting"
  | Num 3 => "Ended"
  | _ => "Unknown"
  end.

(** [!x] on a number: only [NaN] and zero are falsy. *)
Definition js_not_number (x : JsNumber) : bool :=
  match x with
  | NaN => true
  | Num n => bool_decide (n = 0)
  end.

(** What a submit handler of the admin page or of the vote page does with
    the value it read: it shows an alert and returns, or it sends the call. *)
Inductive PageAction : Type :=
  | PageAlert (message : string)
  | SendAddCandidate (name : string)
  | SendVote (candidateId : JsNumber).

(** The submit handler of [addCandidateForm], from the trimmed [name] on. *)
Definition addCandidateForm_submit (name : string) : PageAction :=
  if js_not name then PageAlert "Candidate name cannot be empty."
  else SendAddCandidate name.

(** The submit handler of [voteForm], from [candidateId] on. *)
Definition voteForm_submit (candidateId : JsNumber) : PageAction :=
  if js_not_number candidateId then PageAlert "Please select a candidate."
  else SendVote candidateId.

(** The largest integer a JavaScript number holds exactly, [2^53 - 1]. *)
Definition MAX_SAFE_INTEGER : Z := 2 ^ 53 - 1.

(** The values of the options [refreshVoteView] puts into [candidateSelect],
    one per candidate of [getAllCandidates], as [Number(select.value)] reads
    them back: the candidate's id. *)
Definition candidateSelect_values (cands : list Candidate) : list JsNumber :=
  (λ c, Num (id c)) <$> cands.

(** ** Two further sample histories *)

(** An election with a registration window of one instant, time 5. *)
Definition instant_deployed : Election := initialElection 1 "Snap poll" "Yes or no" 0 50 5.

Definition instant_history : list Tx :=
  [ mkTx 1 5 (AddCandidate "Yes"); mkTx 1 5 StartRegistration;
    mkTx 2 5 RegisterVoter; mkTx 3 6 RegisterVoter ].

(** Registration opened before any candidate was added. *)
Definition stuck_history : list Tx :=
  [ mkTx 1 1 StartRegistration; mkTx 1 2 (AddCandidate "Alice"); mkTx 1 3 StartVoting;
    mkTx 2 4 RegisterVoter; mkTx 1 5 EndElection ].

(** * Properties *)

(** ** Each entry point as a cascade of its checks *)

(** Unfolds the monad of a call and the reads and writes of storage. *)
Ltac run_call :=
  cbv [onlyAdmin inPhase cbind require sload sstore emit sender timestamp lift creturn
       checked_add checked_sub registered voted candidate];
  cbn [admin title description phase registrationStart registrationEnd votingStart
       votingEnd candidatesCount candidates isRegisteredVoter hasVoted
       set_admin set_title set_description set_phase set_registrationStart
       set_registrationEnd set_votingStart set_votingEnd set_candidatesCount
       set_candidates set_isRegisteredVoter set_hasVoted app negb andb].

(** Decides the checks of a call one after the other, first to last. *)
Ltac split_checks :=
  repeat first
    [ progress run_call
    | case_bool_decide
    | match goal with
      | |- context [if ?b then _ else _] => destruct b eqn:?
      | |- context [match (if ?b then _ else _) with _ => _ end] => destruct b eqn:?
      end ];
  try reflexivity; try lia; try congruence.

Lemma vote_cascade _candidateId ctx s :
  vote _candidateId ctx s =
    if negb (bool_decide (phase s = Voting)) then Revert "Invalid phase"
    else if negb (in_window (votingStart s) (votingEnd s) (block_timestamp ctx))
      then Revert "Voting window closed"
    else if negb (registered s (msg_sender ctx)) then Revert "Not registered voter"
    else if voted s (msg_sender ctx) then Revert "Already voted"
    else if negb (in_window 1 (candidatesCount s) _candidateId) then Revert "Invalid candidate"
    else if negb (bool_decide (voteCount (candidate s _candidateId) + 1 ≤ MAX_UINT256))
      then Panic PANIC_ARITHMETIC
    else Ok (tt, cast_vote (msg_sender ctx) _candidateId s,
             [VoteCast (msg_sender ctx) _candidateId]).
Proof.
  unfold vote, in_window, cast_vote. split_checks.
Qed.

Lemma registerVoter_cascade ctx s :
  registerVoter ctx s =
    if negb (bool_decide (phase s = Registration)) then Revert "Invalid phase"
    else if negb (in_window (registrationStart s) (registrationEnd s) (block_timestamp ctx))
      then Revert "Registration window closed"
    else if registered s (msg_sender ctx) then Revert "Already registered"
    else Ok (tt, register (msg_sender ctx) s, [VoterRegistered (msg_sender ctx)]).
Proof. unfold registerVoter, in_window, register. split_checks. Qed.

Lemma addCandidate_cascade _name ctx s :
  addCandidate _name ctx s =
    if negb (bool_decide (msg_sender ctx = admin s)) then Revert "Only admin"
    else if negb (bool_decide (phase s = Created)) then Revert "Invalid phase"
    else if bool_decide (_name = "") then Revert "Name required"
    else if negb (bool_decide (candidatesCount s + 1 ≤ MAX_UINT256))
      then Panic PANIC_ARITHMETIC
    else Ok (tt, push_candidate _name s, [CandidateAdded (candidatesCount s + 1) _name]).
Proof.
  unfold addCandidate, push_candidate. destruct _name; split_checks.
  all: cbn [String.length] in *; lia.
Qed.

Lemma startRegistration_cascade ctx s :
  startRegistration ctx s =
    if negb (bool_decide (msg_sender ctx = admin s)) then Revert "Only admin"
    else if negb (bool_decide (phase s = Created)) then Revert "Already started"
    else Ok (tt, set_phase Registration s, [PhaseChanged Registration]).
Proof. unfold startRegistration. split_checks. Qed.

Lemma startVoting_cascade ctx s :
  startVoting ctx s =
    if negb (bool_decide (msg_sender ctx = admin s)) then Revert "Only admin"
    else if negb (bool_decide (phase s = Registration)) then Revert "Must be in registration"
    else if negb (bool_decide (0 < candidatesCount s)) then Revert "No candidates"
    else Ok (tt, set_phase Voting s, [PhaseChanged Voting]).
Proof. unfold startVoting. split_checks. Qed.

Lemma endElection_cascade ctx s :
  endElection ctx s =
    if negb (bool_decide (msg_sender ctx = admin s)) then Revert "Only admin"
    else if negb (bool_decide (phase s = Voting)) then Revert "Must be in voting"
    else Ok (tt, set_phase Ended s, [PhaseChanged Ended; ElectionEnded]).
Proof. unfold endElection. split_checks. Qed.

Lemma constructor_cascade _admin _title _description _registrationDuration _votingDuration ctx :
  constructor _admin _title _description _registrationDuration _votingDuration ctx zeroElection =
    let now := block_timestamp ctx in
    if negb (bool_decide (now + _registrationDuration ≤ MAX_UINT256))
      then Panic PANIC_ARITHMETIC
    else if negb (bool_decide (now + _registrationDuration + _votingDuration ≤ MAX_UINT256))
      then Panic PANIC_ARITHMETIC
    else Ok (tt, initialElection _admin _title _description _registrationDuration
                   _votingDuration now, []).
Proof. unfold constructor, initialElection. split_checks. Qed.

(** ** A transaction goes through exactly when it is a step *)

Lemma in_window_true lo hi now : in_window lo hi now = true ↔ lo ≤ now ≤ hi.
Proof.
  unfold in_window. rewrite andb_true_iff, !bool_decide_eq_true. reflexivity.
Qed.

Lemma in_window_false lo hi now : in_window lo hi now = false ↔ ¬ (lo ≤ now ≤ hi).
Proof. rewrite <- in_window_true. destruct (in_window lo hi now); naive_solver. Qed.

(** Rewrites the calls of the goal into their cascades. *)
Ltac cascade :=
  rewrite ?vote_cascade, ?registerVoter_cascade, ?addCandidate_cascade,
    ?startRegistration_cascade, ?startVoting_cascade, ?endElection_cascade.

(** Decides the conditions of a cascade, turning each into a hypothesis. *)
Ltac decide_checks :=
  repeat match goal with
    | |- context [bool_decide ?P] => destruct (bool_decide_reflect P); cbn [negb]
    | |- context [in_window ?a ?b ?c] =>
        let E := fresh "W" in
        destruct (in_window a b c) eqn:E;
        [apply in_window_true in E | apply in_window_false in E]; cbn [negb]
    | |- context [registered ?s ?a] => destruct (registered s a) eqn:?; cbn [negb]
    | |- context [voted ?s ?a] => destruct (voted s a) eqn:?; cbn [negb]
    end.

Lemma transact_spec s tx :
  (succeeds s tx = true ∧ step s tx (transact s tx)) ∨
  (succeeds s tx = false ∧ transact s tx = s).
Proof.
  destruct tx as [ctx []]; unfold succeeds, transact, dispatch; cbn [tx_ctx tx_call];
    cascade; decide_checks; try (right; split; reflexivity);
    left; (split; [reflexivity|]); constructor; auto; lia.
Qed.

Lemma transact_fail s tx : succeeds s tx = false → transact s tx = s.
Proof. destruct (transact_spec s tx) as [[E _]|[_ E]]; congruence. Qed.

Lemma transact_step s tx : succeeds s tx = true → step s tx (transact s tx).
Proof. destruct (transact_spec s tx) as [[_ E]|[E _]]; congruence. Qed.

Lemma step_succeeds s tx s' : step s tx s' → succeeds s tx = true ∧ transact s tx = s'.
Proof.
  destruct 1; unfold succeeds, transact, dispatch; cbn [tx_ctx tx_call]; cascade;
    decide_checks; try (split; reflexivity); try congruence; try lia.
Qed.

(** ** What each update does to the mappings *)

Lemma mapping_get_insert `{Countable K} {V} (zero v : V) (m : gmap K V) (k j : K) :
  mapping_get zero (<[k := v]> m) j = if decide (k = j) then v else mapping_get zero m j.
Proof. unfold mapping_get. rewrite lookup_insert. by case_decide. Qed.

Lemma voted_cast_vote caller i s a :
  voted (cast_vote caller i s) a = if decide (caller = a) then true else voted s a.
Proof. unfold voted, cast_vote; cbn. apply mapping_get_insert. Qed.

Lemma registered_cast_vote caller i s a :
  registered (cast_vote caller i s) a = registered s a.
Proof. reflexivity. Qed.

Lemma candidate_cast_vote caller i s j :
  candidate (cast_vote caller i s) j =
    if decide (i = j)
    then {| id := id (candidate s i); name := name (candidate s i);
            voteCount := voteCount (candidate s i) + 1 |}
    else candidate s j.
Proof. unfold candidate, cast_vote; cbn. apply mapping_get_insert. Qed.

Lemma registered_register caller s a :
  registered (register caller s) a = if decide (caller = a) then true else registered s a.
Proof. unfold registered, register; cbn. apply mapping_get_insert. Qed.

Lemma candidate_push_candidate _name s j :
  candidate (push_candidate _name s) j =
    if decide (candidatesCount s + 1 = j)
    then {| id := candidatesCount s + 1; name := _name; voteCount := 0 |}
    else candidate s j.
Proof. unfold candidate, push_candidate; cbn. apply mapping_get_insert. Qed.

Lemma vote_Ok_inv _candidateId ctx s u s' ev :
  vote _candidateId ctx s = Ok (u, s', ev) →
  step s {| tx_ctx := ctx; tx_call := Vote _candidateId |} s' ∧
  s' = cast_vote (msg_sender ctx) _candidateId s ∧
  ev = [VoteCast (msg_sender ctx) _candidateId].
Proof.
  rewrite vote_cascade. decide_checks; try discriminate.
  intros [= <- <- <-]. repeat split. constructor; auto.
Qed.

(** ** C1: [vote] *)

(** C1. For every caller and candidate id, [vote] succeeds only when the phase
    is [Voting], the block time lies in the closed interval
    [[votingStart, votingEnd]], the caller is registered, the caller has not
    voted and the id lies in [[1, candidatesCount]]; the checks are made in
    that order and fail with InvalidPhase, WindowClosed, NotRegistered,
    AlreadyVoted and InvalidCandidate respectively.  A successful vote sets
    the caller's [hasVoted] flag and adds exactly 1 to the [voteCount] of that
    candidate and of no other, leaving everything else as it was; a
    transaction either applies both effects or leaves storage untouched.
    Conversely, when the five conditions hold the vote goes through unless the
    tally is already at the largest [uint256]. *)
Theorem vote_checks_then_counts (ctx : Ctx) (_candidateId : uint256) (s : Election) :
  let caller := msg_sender ctx in
  let now := block_timestamp ctx in
  let tx := {| tx_ctx := ctx; tx_call := Vote _candidateId |} in
  (* success only under the five conditions, with exactly these effects *)
  (∀ u s' ev, vote _candidateId ctx s = Ok (u, s', ev) →
     (phase s = Voting ∧ votingStart s ≤ now ≤ votingEnd s ∧
      registered s caller = true ∧ voted s caller = false ∧
      1 ≤ _candidateId ≤ candidatesCount s) ∧
     voted s' caller = true ∧
     (∀ a, a ≠ caller → voted s' a = voted s a) ∧
     voteCount (candidate s' _candidateId) = voteCount (candidate s _candidateId) + 1 ∧
     id (candidate s' _candidateId) = id (candidate s _candidateId) ∧
     name (candidate s' _candidateId) = name (candidate s _candidateId) ∧
     (∀ j, j ≠ _candidateId → candidate s' j = candidate s j) ∧
     (∀ a, registered s' a = registered s a) ∧
     phase s' = phase s ∧ candidatesCount s' = candidatesCount s ∧ same_settings s s' ∧
     ev = [VoteCast caller _candidateId]) ∧
  (* the failures, in the order of the checks *)
  (phase s ≠ Voting → failure (vote _candidateId ctx s) = Some InvalidPhase) ∧
  (phase s = Voting → ¬ (votingStart s ≤ now ≤ votingEnd s) →
     failure (vote _candidateId ctx s) = Some WindowClosed) ∧
  (phase s = Voting → votingStart s ≤ now ≤ votingEnd s → registered s caller = false →
     failure (vote _candidateId ctx s) = Some NotRegistered) ∧
  (phase s = Voting → votingStart s ≤ now ≤ votingEnd s → registered s caller = true →
     voted s caller = true →
     failure (vote _candidateId ctx s) = Some AlreadyVoted) ∧
  (phase s = Voting → votingStart s ≤ now ≤ votingEnd s → registered s caller = true →
     voted s caller = false → ¬ (1 ≤ _candidateId ≤ candidatesCount s) →
     failure (vote _candidateId ctx s) = Some InvalidCandidate) ∧
  (* the five conditions are enough, short of an overflowing tally *)
  (phase s = Voting → votingStart s ≤ now ≤ votingEnd s → registered s caller = true →
     voted s caller = false → 1 ≤ _candidateId ≤ candidatesCount s →
     voteCount (candidate s _candidateId) < MAX_UINT256 →
     is_Ok (vote _candidateId ctx s) = true) ∧
  (* both effects or neither *)
  (transact s tx = s ∧ is_Ok (vote _candidateId ctx s) = false ∨
   voted s caller = false ∧ voted (transact s tx) caller = true ∧
   voteCount (candidate (transact s tx) _candidateId)
     = voteCount (candidate s _candidateId) + 1 ∧
   is_Ok (vote _candidateId ctx s) = true).
Proof.
  cbv zeta. unfold transact; cbn [tx_ctx tx_call dispatch].
  split; [|repeat split].
  - intros u s' ev H. apply vote_Ok_inv in H as (Hstep & -> & ->).
    inversion Hstep; subst.
    rewrite voted_cast_vote, candidate_cast_vote, !decide_True by reflexivity.
    repeat split; try tauto; try lia; try reflexivity.
    + intros a Ha. rewrite voted_cast_vote, decide_False; congruence.
    + intros j Hj. rewrite candidate_cast_vote, decide_False; congruence.
  - intros. rewrite vote_cascade. decide_checks; tauto.
  - intros. rewrite vote_cascade. decide_checks; tauto.
  - intros. rewrite vote_cascade. decide_checks; try tauto; congruence.
  - intros. rewrite vote_cascade. decide_checks; try tauto; congruence.
  - intros. rewrite vote_cascade. decide_checks; try tauto; congruence.
  - intros. rewrite vote_cascade. decide_checks; try tauto; try congruence; lia.
  - destruct (vote _candidateId ctx s) as [[[u s'] ev]| | |] eqn:E; cbn [is_Ok];
      try (left; split; reflexivity).
    apply vote_Ok_inv in E as (Hstep & -> & ->). inversion Hstep; subst.
    right. rewrite voted_cast_vote, candidate_cast_vote, !decide_True by reflexivity.
    repeat split; auto.
Qed.

(** ** C7: [registerVoter] *)

Lemma registerVoter_Ok_inv ctx s u s' ev :
  registerVoter ctx s = Ok (u, s', ev) →
  step s {| tx_ctx := ctx; tx_call := RegisterVoter |} s' ∧
  s' = register (msg_sender ctx) s ∧ ev = [VoterRegistered (msg_sender ctx)].
Proof.
  rewrite registerVoter_cascade. decide_checks; try discriminate.
  intros [= <- <- <-]. repeat split. constructor; auto.
Qed.

(** No transaction clears a registration flag. *)
Lemma registered_transact s tx a :
  registered s a = true → registered (transact s tx) a = true.
Proof.
  intros Ha. destruct (transact_spec s tx) as [[_ Hstep]|[_ ->]]; [|exact Ha].
  inversion Hstep; subst; try exact Ha.
  rewrite registered_register. case_decide; auto.
Qed.

Lemma registered_replay txs : ∀ s a,
  registered s a = true → registered (replay s txs) a = true.
Proof.
  induction txs as [|tx txs IH]; intros s a Ha; [exact Ha|].
  cbn. apply IH. by apply registered_transact.
Qed.

(** C7. For every caller, [registerVoter] succeeds exactly when the phase is
    [Registration], the block time lies in the closed interval
    [[registrationStart, registrationEnd]] and the caller is not registered
    yet; otherwise it fails with InvalidPhase, WindowClosed or
    AlreadyRegistered, in that order of checks.  On success the caller's
    [isRegisteredVoter] flag is true and nothing else changes; no later
    transaction, nor any sequence of them, resets a flag that is set. *)
Theorem registerVoter_checks_then_registers (ctx : Ctx) (s : Election) :
  let caller := msg_sender ctx in
  let now := block_timestamp ctx in
  (is_Ok (registerVoter ctx s) = true ↔
     phase s = Registration ∧ registrationStart s ≤ now ≤ registrationEnd s ∧
     registered s caller = false) ∧
  (phase s ≠ Registration → failure (registerVoter ctx s) = Some InvalidPhase) ∧
  (phase s = Registration → ¬ (registrationStart s ≤ now ≤ registrationEnd s) →
     failure (registerVoter ctx s) = Some WindowClosed) ∧
  (phase s = Registration → registrationStart s ≤ now ≤ registrationEnd s →
     registered s caller = true →
     failure (registerVoter ctx s) = Some AlreadyRegistered) ∧
  (∀ u s' ev, registerVoter ctx s = Ok (u, s', ev) →
     registered s' caller = true ∧
     (∀ a, a ≠ caller → registered s' a = registered s a) ∧
     hasVoted s' = hasVoted s ∧ candidates s' = candidates s ∧
     candidatesCount s' = candidatesCount s ∧ phase s' = phase s ∧ same_settings s s' ∧
     ev = [VoterRegistered caller]) ∧
  (∀ txs a, registered s a = true → registered (replay s txs) a = true).
Proof.
  cbv zeta. split; [|split; [|split; [|split; [|split]]]].
  - rewrite registerVoter_cascade. decide_checks; cbn [is_Ok]; split;
      try discriminate; try tauto; intros (? & ? & ?); congruence.
  - intros. rewrite registerVoter_cascade. decide_checks; tauto.
  - intros. rewrite registerVoter_cascade. decide_checks; tauto.
  - intros. rewrite registerVoter_cascade. decide_checks; try tauto; congruence.
  - intros u s' ev H. apply registerVoter_Ok_inv in H as (_ & -> & ->).
    rewrite registered_register, decide_True by reflexivity.
    repeat split. intros a Ha. rewrite registered_register, decide_False; congruence.
  - intros txs a. apply registered_replay.
Qed.

(** ** C6: [startVoting] *)

(** C6. Called by the admin, [startVoting] succeeds exactly when the phase is
    [Registration] and there is at least one candidate; it fails with
    InvalidPhase outside [Registration] and with NoCandidates when the count
    is zero.  Its outcome does not depend on the block time: no registration
    window is consulted, so the admin may open the vote before
    [registrationEnd].  On success the phase is [Voting] and nothing else
    changes. *)
Theorem startVoting_by_admin (ctx : Ctx) (s : Election) :
  msg_sender ctx = admin s →
  (is_Ok (startVoting ctx s) = true ↔ phase s = Registration ∧ 0 < candidatesCount s) ∧
  (phase s ≠ Registration → failure (startVoting ctx s) = Some InvalidPhase) ∧
  (phase s = Registration → candidatesCount s = 0 →
     failure (startVoting ctx s) = Some NoCandidates) ∧
  (∀ now, startVoting {| msg_sender := msg_sender ctx; block_timestamp := now |} s
            = startVoting ctx s) ∧
  (phase s = Registration → 0 < candidatesCount s →
     ∀ now, now < registrationEnd s →
       is_Ok (startVoting {| msg_sender := msg_sender ctx; block_timestamp := now |} s)
         = true) ∧
  (∀ u s' ev, startVoting ctx s = Ok (u, s', ev) →
     phase s' = Voting ∧ same_ballots s s' ∧ same_settings s s' ∧
     ev = [PhaseChanged Voting]).
Proof.
  intros Hadmin. split; [|split; [|split; [|split; [|split]]]].
  - rewrite startVoting_cascade. decide_checks; cbn [is_Ok]; split;
      try discriminate; try tauto; intros (? & ?); congruence.
  - intros. rewrite startVoting_cascade. decide_checks; tauto.
  - intros. rewrite startVoting_cascade. decide_checks; try tauto; lia.
  - intros now. rewrite !startVoting_cascade. reflexivity.
  - intros ? ? now _. rewrite startVoting_cascade; cbn [msg_sender].
    decide_checks; tauto.
  - intros u s' ev. rewrite startVoting_cascade. decide_checks; try discriminate.
    intros [= <- <- <-]. repeat split.
Qed.

(** Scenario D: the admin opens the vote at time 10, before
    [registrationEnd = 100]. *)
Lemma startVoting_by_admin_witness :
  let ctx := {| msg_sender := 1; block_timestamp := 10 |} in
  msg_sender ctx = admin scenarioD_state ∧
  block_timestamp ctx < registrationEnd scenarioD_state ∧
  is_Ok (startVoting ctx scenarioD_state) = true.
Proof.
  cbv zeta. split; [reflexivity|]. split; [reflexivity|].
  destruct (startVoting_by_admin {| msg_sender := 1; block_timestamp := 10 |}
              scenarioD_state eq_refl) as (_ & _ & _ & _ & Hearly & _).
  apply (Hearly eq_refl); reflexivity.
Defined.

(** ** C4, C5: [createElection] and the constructor *)

Lemma createElection_cascade at_ _title _description _registrationDuration _votingDuration
    ctx f :
  createElection at_ _title _description _registrationDuration _votingDuration ctx f =
    let now := block_timestamp ctx in
    if negb (bool_decide (now + _registrationDuration ≤ MAX_UINT256))
      then Panic PANIC_ARITHMETIC
    else if negb (bool_decide (now + _registrationDuration + _votingDuration ≤ MAX_UINT256))
      then Panic PANIC_ARITHMETIC
    else if negb (bool_decide (electionCount f + 1 ≤ MAX_UINT256))
      then Panic PANIC_ARITHMETIC
    else Ok ((electionCount f + 1, at_),
             record_election at_
               (initialElection (msg_sender ctx) _title _description
                  _registrationDuration _votingDuration now) f,
             [ElectionCreated (electionCount f + 1) at_ (msg_sender ctx) _title]).
Proof.
  unfold createElection, new_Election, record_election.
  cbv [cbind sender timestamp lift sload sstore emit creturn].
  rewrite constructor_cascade. cbv zeta. cbn [block_timestamp].
  unfold checked_add.
  repeat (cbn [negb app electionCount elections deployed set_electionCount set_elections
               set_deployed];
          try reflexivity; try case_bool_decide).
Qed.

Lemma scenarioA_holds : scenarioA.
Proof. do 3 eexists. split; [vm_compute; reflexivity|]. vm_compute. auto. Qed.

(** C5. Every successful creation at block time [now] with durations
    [regDuration] and [votDuration] deploys an election in phase [Created],
    whose admin is the creator, with [registrationStart = now],
    [registrationEnd = now + regDuration], [votingStart = registrationEnd] and
    [votingEnd = votingStart + votDuration]; it returns the next id and the
    address of that election, and records the address under the id.  The
    creation goes through whenever the sums stay within [uint256].  In
    particular durations 100 and 200 at time 0 give the windows [[0,100]] and
    [[100,300]]. *)
Theorem createElection_windows (at_ : address) (_title _description : string)
    (_registrationDuration _votingDuration : uint256) (ctx : Ctx) (f : Factory) :
  let creator := msg_sender ctx in
  let now := block_timestamp ctx in
  (∀ i a f' ev,
     createElection at_ _title _description _registrationDuration _votingDuration ctx f
       = Ok ((i, a), f', ev) →
     ∃ e, deployed f' !! a = Some e ∧
       phase e = Created ∧ admin e = creator ∧
       title e = _title ∧ description e = _description ∧
       registrationStart e = now ∧
       registrationEnd e = now + _registrationDuration ∧
       votingStart e = registrationEnd e ∧
       votingEnd e = votingStart e + _votingDuration ∧
       candidatesCount e = 0 ∧
       i = electionCount f + 1 ∧ electionCount f' = i ∧ elections f' !! i = Some a ∧
       deployment e) ∧
  (now + _registrationDuration + _votingDuration ≤ MAX_UINT256 →
   now + _registrationDuration ≤ MAX_UINT256 → electionCount f < MAX_UINT256 →
   is_Ok (createElection at_ _title _description _registrationDuration _votingDuration ctx f)
     = true) ∧
  scenarioA.
Proof.
  cbv zeta. rewrite createElection_cascade. cbv zeta.
  split; [|split; [|exact scenarioA_holds]].
  - intros i a f' ev. repeat (case_bool_decide; cbn [negb]; try discriminate).
    intros [= <- <- <- <-]. eexists. split; [apply lookup_insert_eq|].
    cbn. repeat split; try lia; try apply lookup_insert_eq.
    exists ctx, (msg_sender ctx), _title, _description, _registrationDuration,
      _votingDuration, [].
    rewrite constructor_cascade. cbv zeta.
    rewrite !bool_decide_eq_true_2 by assumption. reflexivity.
  - intros. rewrite !bool_decide_eq_true_2 by lia. reflexivity.
Qed.

(** C4, counterexample. With an empty title, an empty description and both
    durations zero the contract creates election 1. *)
Lemma createElection_accepts_empty_input : ¬ createElection_validates.
Proof.
  intros H.
  destruct (H 4096 "" "" 0 0 {| msg_sender := 1; block_timestamp := 0 |} zeroFactory
              (or_introl eq_refl)) as [Hfail _].
  vm_compute in Hfail. discriminate.
Qed.

(** C4, amended. [createElection] makes no check of its arguments: whatever
    the title, the description and the durations, empty and zero included, it
    goes through exactly when no [uint256] sum overflows, and then the count
    is one more and the new address is recorded under it; otherwise it aborts
    with an arithmetic panic, never with a reason string, and the registry is
    unchanged.  The check on empty texts and non-positive durations is the
    front end's: its form handler then shows an alert and calls nothing. *)
Theorem createElection_unchecked (at_ : address) (_title _description : string)
    (_registrationDuration _votingDuration : uint256) (ctx : Ctx) (f : Factory) :
  let now := block_timestamp ctx in
  let r := createElection at_ _title _description _registrationDuration
             _votingDuration ctx f in
  let f' := create at_ _title _description _registrationDuration _votingDuration ctx f in
  (is_Ok r = true ↔
     now + _registrationDuration ≤ MAX_UINT256 ∧
     now + _registrationDuration + _votingDuration ≤ MAX_UINT256 ∧
     electionCount f + 1 ≤ MAX_UINT256) ∧
  (is_Ok r = true →
     electionCount f' = electionCount f + 1 ∧
     elections f' !! (electionCount f + 1) = Some at_ ∧
     is_Some (deployed f' !! at_)) ∧
  (is_Ok r = false → r = Panic PANIC_ARITHMETIC ∧ failure r = None ∧ f' = f) ∧
  (∀ regDur votDur,
     (_title = "" ∨ _description = "" ∨
      (∃ n, regDur = Num n ∧ n ≤ 0) ∨ (∃ n, votDur = Num n ∧ n ≤ 0)) ↔
     createElectionForm_submit _title _description regDur votDur
       = Alert "Please fill all fields with valid values.").
Proof.
  cbv zeta. unfold create. rewrite createElection_cascade. cbv zeta.
  split; [|split; [|split]].
  - repeat (case_bool_decide; cbn [negb is_Ok]); split; try discriminate; try tauto.
  - repeat (case_bool_decide; cbn [negb is_Ok]); try discriminate. intros _.
    cbn. rewrite !lookup_insert_eq. eauto.
  - repeat (case_bool_decide; cbn [negb is_Ok failure]); try discriminate; auto.
  - intros regDur votDur. unfold createElectionForm_submit, js_not, js_le_zero.
    split.
    + intros [->|[->|[(n & -> & ?)|(n & -> & ?)]]];
        repeat match goal with
               | |- context [bool_decide ?P] => destruct (bool_decide_reflect P)
               | |- context [match ?x with NaN => _ | Num _ => _ end] => destruct x
               end; cbn [orb]; try reflexivity; try contradiction.
    + destruct regDur as [|n], votDur as [|m]; repeat case_bool_decide;
        cbn [orb]; try discriminate; intros _; eauto 6.
Qed.

(** ** Reachable states and histories *)

Lemma deployment_inv s :
  deployment s →
  ∃ _admin _title _description _registrationDuration _votingDuration now,
    s = initialElection _admin _title _description _registrationDuration
          _votingDuration now.
Proof.
  intros (ctx & a & t & d & rd & vd & ev & H).
  rewrite constructor_cascade in H. cbv zeta in H.
  repeat (case_bool_decide; cbn [negb] in H; try discriminate).
  injection H as <- _. eauto 7.
Qed.

Lemma replay_cons s tx txs : replay s (tx :: txs) = replay (transact s tx) txs.
Proof. reflexivity. Qed.

Lemma successful_cons s tx txs :
  successful s (tx :: txs) =
    if succeeds s tx then tx :: successful (transact s tx) txs else successful s txs.
Proof. reflexivity. Qed.

Lemma replay_snoc s txs tx : replay s (txs ++ [tx]) = transact (replay s txs) tx.
Proof. apply foldl_snoc. Qed.

Lemma replay_app s txs1 txs2 : replay s (txs1 ++ txs2) = replay (replay s txs1) txs2.
Proof. apply foldl_app. Qed.

Lemma successful_app txs1 : ∀ s txs2,
  successful s (txs1 ++ txs2) = successful s txs1 ++ successful (replay s txs1) txs2.
Proof.
  induction txs1 as [|tx txs1 IH]; intros s txs2; [reflexivity|].
  cbn. destruct (succeeds s tx) eqn:E.
  - cbn. by rewrite IH.
  - rewrite (transact_fail _ _ E). apply IH.
Qed.

Lemma reachable_replay s :
  reachable s ↔ ∃ s0 txs, deployment s0 ∧ s = replay s0 txs.
Proof.
  split.
  - induction 1 as [s Hs|s tx _ (s0 & txs & Hs0 & ->)].
    + exists s, []. auto.
    + exists s0, (txs ++ [tx]). by rewrite replay_snoc.
  - intros (s0 & txs & Hs0 & ->).
    induction txs as [|tx txs IH] using rev_ind.
    + by constructor.
    + rewrite replay_snoc. by constructor.
Qed.

(** An invariant of the deployed state that every step preserves holds of
    every reachable state. *)
Lemma reachable_ind_step (P : Election → Prop) :
  (∀ s, deployment s → P s) →
  (∀ s tx s', P s → step s tx s' → P s') →
  ∀ s, reachable s → P s.
Proof.
  intros Hinit Hstep s. induction 1 as [s Hs|s tx _ IH]; [auto|].
  destruct (transact_spec s tx) as [[_ Hs]|[_ ->]]; eauto.
Qed.

(** ** C10: whoever has voted is registered *)

Lemma voters_registered_step s tx s' :
  voters_registered s → step s tx s' → voters_registered s'.
Proof.
  intros Hinv Hstep a. inversion Hstep; subst; try apply Hinv.
  - rewrite registered_register. case_decide; [reflexivity|apply Hinv].
  - rewrite voted_cast_vote, registered_cast_vote.
    case_decide; subst; [auto|apply Hinv].
Qed.

Lemma voters_registered_reachable s : reachable s → voters_registered s.
Proof.
  apply (reachable_ind_step voters_registered); [|apply voters_registered_step].
  intros s0 (? & ? & ? & ? & ? & ? & ->)%deployment_inv a H. discriminate H.
Qed.

Lemma registrants_cons tx txs :
  registrants (tx :: txs) =
    match tx_call tx with
    | RegisterVoter => msg_sender (tx_ctx tx) :: registrants txs
    | _ => registrants txs
    end.
Proof. unfold registrants. cbn. by destruct (tx_call tx). Qed.

Lemma registered_transact_iff s tx a :
  registered (transact s tx) a = true ↔
  registered s a = true ∨
  (succeeds s tx = true ∧ tx_call tx = RegisterVoter ∧ msg_sender (tx_ctx tx) = a).
Proof.
  destruct (transact_spec s tx) as [[E Hstep]|[E ->]].
  - inversion Hstep; subst; cbn [tx_call tx_ctx]; try (split; [auto|intros [?|(?&?&?)]; done]).
    rewrite registered_register. case_decide; intuition auto.
  - split; [auto|]. intros [?|(?&?&?)]; congruence.
Qed.

Lemma registered_replay_iff txs : ∀ s a,
  registered (replay s txs) a = true ↔
  registered s a = true ∨ a ∈ registrants (successful s txs).
Proof.
  induction txs as [|tx txs IH]; intros s a; cbn.
  - split; [auto|]. intros [?|H]; [done|]. by apply elem_of_nil in H.
  - rewrite IH, registered_transact_iff. destruct (succeeds s tx) eqn:E.
    + rewrite registrants_cons. destruct (tx_call tx);
        rewrite ?elem_of_cons; intuition (discriminate || auto).
    + rewrite (transact_fail _ _ E). intuition discriminate.
Qed.

(** C10. In every state reached from a deployment, each voter whose
    [hasVoted] flag is set also has [isRegisteredVoter] set; a flag
    [isRegisteredVoter] is set only by a successful [registerVoter] of that
    caller earlier in the history, so a vote that goes through comes from a
    caller who registered before. *)
Theorem voted_implies_registered (s0 : Election) (txs : list Tx) :
  deployment s0 →
  let s := replay s0 txs in
  (∀ a, voted s a = true → registered s a = true) ∧
  (∀ a, registered s a = true ↔ a ∈ registrants (successful s0 txs)) ∧
  (∀ ctx _candidateId,
     is_Ok (vote _candidateId ctx s) = true →
     msg_sender ctx ∈ registrants (successful s0 txs)) ∧
  reachable s.
Proof.
  intros Hs0. cbv zeta.
  assert (Hreach : reachable (replay s0 txs)) by (apply reachable_replay; eauto).
  assert (Hreg : ∀ a, registered (replay s0 txs) a = true ↔
                      a ∈ registrants (successful s0 txs)).
  { intros a. rewrite registered_replay_iff.
    apply deployment_inv in Hs0 as (? & ? & ? & ? & ? & ? & ->).
    split; [intros [H|H]; [discriminate H|exact H]|auto]. }
  split; [|split; [|split]]; [|exact Hreg| |exact Hreach].
  - by apply voters_registered_reachable.
  - intros ctx i H. apply Hreg.
    destruct (vote i ctx (replay s0 txs)) as [[[u s'] ev]| | |] eqn:E; try discriminate.
    apply vote_Ok_inv in E as (Hstep & _). by inversion Hstep.
Qed.

(** The sample history starts from a deployment. *)
Lemma sample_deployment : deployment sample_deployed.
Proof.
  exists {| msg_sender := 9; block_timestamp := 0 |}, 1, "Board", "Annual vote", 100, 200, [].
  vm_compute. reflexivity.
Qed.

(** The sample history: whoever has voted there is registered. *)
Lemma voted_implies_registered_witness :
  deployment sample_deployed ∧
  ∀ a, voted (replay sample_deployed sample_history) a = true →
       registered (replay sample_deployed sample_history) a = true.
Proof.
  split; [exact sample_deployment|].
  destruct (voted_implies_registered sample_deployed sample_history sample_deployment)
    as [H _].
  exact H.
Defined.

(** ** C8, C9: candidate ids and the read helpers *)

Lemma MAX_UINT256_pos : 0 < MAX_UINT256.
Proof. reflexivity. Qed.

Lemma ids_dense_deployment s : deployment s → ids_dense s.
Proof.
  intros (? & ? & ? & ? & ? & ? & ->)%deployment_inv.
  pose proof MAX_UINT256_pos. unfold ids_dense; cbn [initialElection candidatesCount candidates].
  split; [lia|]. split; intros i Hi; [lia|apply lookup_empty].
Qed.

Lemma candidate_None s i : candidates s !! i = None → candidate s i = zeroCandidate.
Proof. unfold candidate, mapping_get. by intros ->. Qed.

Lemma ids_dense_step s tx s' : ids_dense s → step s tx s' → ids_dense s'.
Proof.
  intros (Hn & Hin & Hout) Hstep.
  inversion Hstep; subst; try exact (conj Hn (conj Hin Hout)).
  - (* addCandidate *)
    split; [cbn; lia|]. split.
    + intros i Hi. rewrite candidate_push_candidate. cbn in *.
      rewrite lookup_insert. case_decide; [auto|]. apply Hin. lia.
    + intros i Hi. cbn in *. rewrite lookup_insert_ne by lia. apply Hout. lia.
  - (* vote *)
    split; [exact Hn|]. split.
    + intros i Hi. rewrite candidate_cast_vote. cbn in *.
      rewrite lookup_insert. case_decide; subst; cbn; [|by apply Hin].
      split; [eauto|]. by apply Hin.
    + intros i Hi. cbn in *. rewrite lookup_insert_ne by lia. by apply Hout.
Qed.

Lemma ids_dense_transact s tx : ids_dense s → ids_dense (transact s tx).
Proof.
  intros H. destruct (transact_spec s tx) as [[_ Hs]|[_ ->]]; [|done].
  eapply ids_dense_step; eauto.
Qed.

Lemma ids_dense_reachable s : reachable s → ids_dense s.
Proof.
  apply (reachable_ind_step ids_dense); [apply ids_dense_deployment|].
  intros; eapply ids_dense_step; eauto.
Qed.

Lemma snapshot_push_candidate _name s :
  ids_dense s →
  snapshot (push_candidate _name s) =
    snapshot s ++ [{| id := candidatesCount s + 1; name := _name; voteCount := 0 |}].
Proof.
  intros (Hn & _ & _). unfold snapshot. cbn [candidatesCount push_candidate set_candidates
    set_candidatesCount].
  rewrite seqZ_app, fmap_app by lia. f_equal.
  - apply list_fmap_ext. intros k i (-> & ?)%lookup_seqZ.
    rewrite candidate_push_candidate, decide_False by lia. reflexivity.
  - rewrite (seqZ_cons _ 1), seqZ_nil by lia. cbn [fmap list_fmap].
    rewrite candidate_push_candidate, decide_True by lia. reflexivity.
Qed.

Lemma snapshot_ids s : ids_dense s → id <$> snapshot s = seqZ 1 (candidatesCount s).
Proof.
  intros (_ & Hin & _). unfold snapshot. rewrite <- list_fmap_compose.
  rewrite <- (list_fmap_id (seqZ 1 (candidatesCount s))) at 2.
  apply list_fmap_ext. intros k i (-> & ?)%lookup_seqZ. cbn. apply Hin. lia.
Qed.

Lemma snapshot_names_transact s tx :
  ids_dense s →
  name <$> snapshot (transact s tx) =
    (name <$> snapshot s) ++ (if succeeds s tx then added_names [tx] else []).
Proof.
  intros Hs. destruct (transact_spec s tx) as [[-> Hstep]|[-> ->]];
    [|by rewrite app_nil_r].
  inversion Hstep; subst; try (by rewrite app_nil_r).
  - rewrite snapshot_push_candidate, fmap_app by done. reflexivity.
  - rewrite app_nil_r. unfold snapshot. rewrite <- !list_fmap_compose.
    apply list_fmap_ext. intros k j _. cbn. rewrite candidate_cast_vote.
    by case_decide; subst.
Qed.

Lemma added_names_cons tx txs :
  added_names (tx :: txs) = added_names [tx] ++ added_names txs.
Proof. unfold added_names. cbn. by destruct (tx_call tx). Qed.

Lemma snapshot_names_replay txs : ∀ s,
  ids_dense s →
  name <$> snapshot (replay s txs) =
    (name <$> snapshot s) ++ added_names (successful s txs).
Proof.
  induction txs as [|tx txs IH]; intros s Hs; [by rewrite app_nil_r|].
  rewrite replay_cons, successful_cons.
  rewrite IH, snapshot_names_transact by auto using ids_dense_transact.
  destruct (succeeds s tx) eqn:E.
  - by rewrite (added_names_cons tx (successful _ _)), <- app_assoc.
  - by rewrite app_nil_r, (transact_fail _ _ E).
Qed.

Lemma length_snapshot s : length (snapshot s) = Z.to_nat (candidatesCount s).
Proof. unfold snapshot. by rewrite length_fmap, length_seqZ. Qed.

(** The loop fills the array from the left; with gas for the remaining rounds
    it returns the array filled up to [candidatesCount]. *)
Lemma getAllCandidates_loop_fills gas : ∀ s i arr,
  1 ≤ i ≤ candidatesCount s + 1 →
  candidatesCount s < MAX_UINT256 →
  length arr = Z.to_nat (candidatesCount s) →
  candidatesCount s + 1 - i < Z.of_nat gas →
  getAllCandidates_loop gas s i arr =
    Ok (take (Z.to_nat (i - 1)) arr ++
        (candidate s <$> seqZ i (candidatesCount s + 1 - i))).
Proof.
  induction gas as [|gas IH]; intros s i arr Hi Hmax Hlen Hgas; [lia|].
  cbn [getAllCandidates_loop]. case_bool_decide as Hle.
  - unfold checked_sub, checked_add, array_set.
    rewrite !bool_decide_eq_true_2 by lia.
    rewrite IH by (rewrite ?length_insert; lia).
    f_equal. rewrite (seqZ_cons i) by lia. cbn [fmap list_fmap].
    replace (Z.to_nat (i + 1 - 1)) with (S (Z.to_nat (i - 1))) by lia.
    rewrite (take_S_r _ _ (candidate s i)) by (apply list_lookup_insert_eq; lia).
    rewrite take_insert_ge by lia. rewrite <- app_assoc. cbn [app].
    replace (Z.succ i) with (i + 1) by lia.
    replace (Z.pred (candidatesCount s + 1 - i)) with (candidatesCount s + 1 - (i + 1))
      by lia.
    reflexivity.
  - replace (candidatesCount s + 1 - i) with 0 by lia.
    rewrite seqZ_nil by lia. cbn [fmap list_fmap]. rewrite app_nil_r.
    by rewrite take_ge by lia.
Qed.

(** The gas given to the loop is enough: it never runs out. *)
Lemma getAllCandidates_loop_gas gas : ∀ s i arr,
  i ≤ candidatesCount s + 1 →
  candidatesCount s + 1 - i < Z.of_nat gas →
  getAllCandidates_loop gas s i arr ≠ OutOfGas.
Proof.
  induction gas as [|gas IH]; intros s i arr Hi Hgas; [lia|].
  cbn [getAllCandidates_loop]. unfold checked_sub, checked_add, array_set.
  repeat (case_bool_decide; try discriminate). apply IH; lia.
Qed.

(** With [candidatesCount] at the largest [uint256] the loop counter cannot
    pass it: the increment after the last round overflows. *)
Lemma MAX_ARRAY_LENGTH_lt : MAX_ARRAY_LENGTH < MAX_UINT256.
Proof. reflexivity. Qed.

Lemma new_array_Ok {A} (zero : A) n :
  n ≤ MAX_ARRAY_LENGTH → new_array zero n = Ok (replicate (Z.to_nat n) zero).
Proof. intros Hn. unfold new_array. by rewrite bool_decide_eq_true_2. Qed.

Lemma new_array_Panic {A} (zero : A) n :
  MAX_ARRAY_LENGTH < n → new_array zero n = Panic PANIC_ALLOCATION.
Proof. intros Hn. unfold new_array. rewrite bool_decide_eq_false_2; [done|lia]. Qed.

Lemma getAllCandidates_snapshot ctx s :
  0 ≤ candidatesCount s ≤ MAX_ARRAY_LENGTH →
  getAllCandidates ctx s = Ok (snapshot s, s, []).
Proof.
  intros Hn. pose proof MAX_ARRAY_LENGTH_lt.
  unfold getAllCandidates. cbv [cbind sload lift].
  rewrite new_array_Ok by lia.
  rewrite getAllCandidates_loop_fills by (rewrite ?length_replicate; lia).
  cbn. replace (candidatesCount s + 1 - 1) with (candidatesCount s) by lia.
  reflexivity.
Qed.

Lemma getAllCandidates_too_long ctx s :
  MAX_ARRAY_LENGTH < candidatesCount s →
  getAllCandidates ctx s = Panic PANIC_ALLOCATION.
Proof.
  intros Hn. unfold getAllCandidates. cbv [cbind sload lift].
  by rewrite new_array_Panic.
Qed.

(** When [getAllCandidates] returns, the array could be allocated. *)
Lemma getAllCandidates_Ok_length ctx s r :
  getAllCandidates ctx s = Ok r → candidatesCount s ≤ MAX_ARRAY_LENGTH.
Proof.
  intros Hget. destruct (decide (candidatesCount s ≤ MAX_ARRAY_LENGTH)) as [|Hlong]; [done|].
  rewrite getAllCandidates_too_long in Hget by lia. discriminate.
Qed.

Lemma addCandidate_Ok_inv _name ctx s u s' ev :
  addCandidate _name ctx s = Ok (u, s', ev) →
  step s {| tx_ctx := ctx; tx_call := AddCandidate _name |} s' ∧
  s' = push_candidate _name s ∧ ev = [CandidateAdded (candidatesCount s + 1) _name].
Proof.
  rewrite addCandidate_cascade. decide_checks; try discriminate.
  intros [= <- <- <-]. repeat split. constructor; auto.
Qed.

(** C8. In every state reached from a deployment the candidate ids are
    exactly [1 .. candidatesCount], without gaps: candidate [i] carries the id
    [i] and nothing is stored outside that range.  The ids follow the order of
    the successful [addCandidate] calls: the names read in ascending id are
    the names of those calls in the order they were made; a further
    successful [addCandidate] stores its candidate under [count + 1] with no
    votes and touches no other.  [getAllCandidates] returns all of them, in
    ascending id, and changes nothing, as long as the array it returns can
    be allocated: up to [2^64 - 1] candidates.  With more candidates than
    that, the call ends in the panic of the allocation instead.  Its loop
    always ends. *)
Theorem candidate_ids_sequential (s0 : Election) (txs : list Tx) :
  deployment s0 →
  let s := replay s0 txs in
  let n := candidatesCount s in
  (0 ≤ n ∧ id <$> snapshot s = seqZ 1 n ∧ length (snapshot s) = Z.to_nat n) ∧
  (∀ i, 1 ≤ i ≤ n → id (candidate s i) = i) ∧
  (∀ i, ¬ (1 ≤ i ≤ n) → candidates s !! i = None) ∧
  name <$> snapshot s = added_names (successful s0 txs) ∧
  (∀ ctx _name u s' ev,
     addCandidate _name ctx s = Ok (u, s', ev) →
     candidatesCount s' = n + 1 ∧
     candidate s' (n + 1) = {| id := n + 1; name := _name; voteCount := 0 |} ∧
     (∀ j, j ≠ n + 1 → candidate s' j = candidate s j) ∧
     snapshot s' = snapshot s ++ [{| id := n + 1; name := _name; voteCount := 0 |}]) ∧
  (n ≤ MAX_ARRAY_LENGTH → ∀ ctx, getAllCandidates ctx s = Ok (snapshot s, s, [])) ∧
  (MAX_ARRAY_LENGTH < n → ∀ ctx, getAllCandidates ctx s = Panic PANIC_ALLOCATION) ∧
  (∀ ctx, getAllCandidates ctx s ≠ OutOfGas).
Proof.
  intros Hs0. cbv zeta.
  assert (Hs : ids_dense (replay s0 txs)).
  { apply ids_dense_reachable, reachable_replay. eauto. }
  pose proof Hs as (Hn & Hin & Hout).
  split; [|split; [|split; [|split; [|split; [|split; [|split]]]]]].
  - split; [lia|]. split; [by apply snapshot_ids|apply length_snapshot].
  - intros i Hi. by apply Hin.
  - exact Hout.
  - rewrite snapshot_names_replay by by apply ids_dense_deployment.
    apply deployment_inv in Hs0 as (? & ? & ? & ? & ? & ? & ->). reflexivity.
  - intros ctx _name u s' ev (_ & -> & _)%addCandidate_Ok_inv.
    split; [reflexivity|]. rewrite candidate_push_candidate, decide_True by done.
    split; [reflexivity|]. split; [|by apply snapshot_push_candidate].
    intros j Hj. rewrite candidate_push_candidate, decide_False; done.
  - intros Hlen ctx. apply getAllCandidates_snapshot. lia.
  - intros Hlen ctx. by apply getAllCandidates_too_long.
  - intros ctx.
    destruct (decide (candidatesCount (replay s0 txs) ≤ MAX_ARRAY_LENGTH)) as [Hlen|Hlen].
    + rewrite getAllCandidates_snapshot by lia. discriminate.
    + rewrite getAllCandidates_too_long by lia. discriminate.
Qed.

(** The sample history: Alice and Bob, in the order they were added, under
    the ids 1 and 2. *)
Lemma candidate_ids_sequential_witness :
  deployment sample_deployed ∧
  name <$> snapshot (replay sample_deployed sample_history) = ["Alice"; "Bob"] ∧
  id <$> snapshot (replay sample_deployed sample_history) = [1; 2].
Proof.
  split; [exact sample_deployment|].
  destruct (candidate_ids_sequential sample_deployed sample_history sample_deployment)
    as ((_ & Hids & _) & _ & _ & Hnames & _).
  split; [rewrite Hnames|rewrite Hids]; vm_compute; reflexivity.
Defined.

Lemma sample_reachable : reachable (replay sample_deployed sample_history).
Proof. apply reachable_replay. exists sample_deployed, sample_history. auto using sample_deployment. Qed.

(** C9, counterexample. After the sample history there are two candidates;
    [getCandidate(9)] returns the zero candidate instead of failing. *)
Lemma getCandidate_unknown_id_returns :
  ¬ getCandidate_validates ∧
  candidatesCount (replay sample_deployed sample_history) = 2 ∧
  getCandidate 9 {| msg_sender := 2; block_timestamp := 170 |}
      (replay sample_deployed sample_history)
    = Ok (zeroCandidate, replay sample_deployed sample_history, []).
Proof.
  split; [|split; vm_compute; reflexivity].
  intros H.
  specialize (H {| msg_sender := 2; block_timestamp := 170 |}
                (replay sample_deployed sample_history) 9 sample_reachable).
  vm_compute in H. discriminate H. intros [_ Hle]. apply Hle. reflexivity.
Qed.

(** C9, amended. [getCandidate] never fails and changes nothing: it returns
    what is stored under the id.  In a reachable state that is the candidate
    with this id when the id lies in [[1, candidatesCount]], and the zero
    candidate (id 0, empty name, no votes) for every other id. *)
Theorem getCandidate_total (_id : uint256) (ctx : Ctx) (s : Election) :
  getCandidate _id ctx s = Ok (candidate s _id, s, []) ∧
  failure (getCandidate _id ctx s) = None ∧
  (reachable s →
     (1 ≤ _id ≤ candidatesCount s → id (candidate s _id) = _id) ∧
     (¬ (1 ≤ _id ≤ candidatesCount s) → candidate s _id = zeroCandidate)).
Proof.
  split; [reflexivity|]. split; [reflexivity|].
  intros (_ & Hin & Hout)%ids_dense_reachable. split.
  - intros H. by apply Hin.
  - intros H. by apply candidate_None, Hout.
Qed.

(** ** C2: tallies count the votes that went through *)

Lemma voters_cons tx txs :
  voters (tx :: txs) =
    match voter tx with Some a => a :: voters txs | None => voters txs end.
Proof. reflexivity. Qed.

Lemma voters_for_cons c tx txs :
  voters_for c (tx :: txs) =
    match voter_for c tx with Some a => a :: voters_for c txs | None => voters_for c txs end.
Proof. reflexivity. Qed.

Lemma voters_for_sublist c txs : voters_for c txs `sublist_of` voters txs.
Proof.
  induction txs as [|tx txs IH]; [constructor|].
  rewrite voters_cons, voters_for_cons. unfold voter, voter_for.
  destruct (tx_call tx); try exact IH. case_decide; by constructor.
Qed.

Lemma voted_transact_iff s tx a :
  voted (transact s tx) a = true ↔
  voted s a = true ∨ (succeeds s tx = true ∧ voter tx = Some a).
Proof.
  unfold voter. destruct (transact_spec s tx) as [[-> Hstep]|[-> ->]].
  - inversion Hstep; subst; cbn [tx_call tx_ctx];
      try (split; [auto|intros [?|[_ ?]]; done]).
    rewrite voted_cast_vote. case_decide as Ha.
    + subst. split; auto.
    + split; [auto|]. intros [?|[_ [= ?]]]; done.
  - split; [auto|]. intros [?|[? _]]; done.
Qed.

Lemma succeeds_vote_fresh s tx a :
  succeeds s tx = true → voter tx = Some a → voted s a = false.
Proof.
  intros Hstep%transact_step. unfold voter.
  inversion Hstep; subst; cbn [tx_call tx_ctx]; try discriminate.
  by intros [= <-].
Qed.

(** Over a history, the flags [hasVoted] that get set are those of the callers
    of its successful votes, each of whom was unmarked before and occurs once. *)
Lemma voters_replay txs : ∀ s,
  NoDup (voters (successful s txs)) ∧
  (∀ a, a ∈ voters (successful s txs) → voted s a = false) ∧
  (∀ a, voted (replay s txs) a = true ↔
        voted s a = true ∨ a ∈ voters (successful s txs)).
Proof.
  induction txs as [|tx txs IH]; intros s.
  { cbn. split; [constructor|]. split; [by intros a ?%elem_of_nil|].
    intros a. split; [auto|]. by intros [?|?%elem_of_nil]. }
  rewrite replay_cons, successful_cons.
  destruct (IH (transact s tx)) as (Hnd & Hfresh & Hvoted).
  destruct (succeeds s tx) eqn:E; [|by rewrite (transact_fail _ _ E) in *].
  rewrite voters_cons. destruct (voter tx) as [b|] eqn:Hb.
  - assert (Hb' : voted (transact s tx) b = true) by (apply voted_transact_iff; auto).
    split; [|split].
    + constructor; [|done]. intros Hin%Hfresh. congruence.
    + intros a [->|Hin]%elem_of_cons; [by eapply succeeds_vote_fresh|].
      apply Hfresh in Hin. destruct (voted s a) eqn:Ha; [|done].
      assert (voted (transact s tx) a = true) by (apply voted_transact_iff; auto).
      congruence.
    + intros a. rewrite Hvoted, voted_transact_iff, elem_of_cons, Hb.
      split; [intros [[?|[_ [= ->]]]|?]; auto|].
      intros [?|[->|?]]; auto.
  - split; [done|]. split.
    + intros a Hin%Hfresh. destruct (voted s a) eqn:Ha; [|done].
      assert (voted (transact s tx) a = true) by (apply voted_transact_iff; auto).
      congruence.
    + intros a. rewrite Hvoted, voted_transact_iff, Hb.
      split; [intros [[?|[_ [=]]]|?]; auto|]. intros [?|?]; auto.
Qed.

Lemma voteCount_transact s tx c :
  ids_dense s →
  voteCount (candidate (transact s tx) c) =
    voteCount (candidate s c) +
    (if succeeds s tx then Z.of_nat (length (voters_for c [tx])) else 0).
Proof.
  intros (Hn & Hin & Hout).
  destruct (transact_spec s tx) as [[-> Hstep]|[-> ->]]; [|lia].
  inversion Hstep; subst; rewrite voters_for_cons; unfold voter_for;
    cbn [tx_call tx_ctx voters_for omap list_omap length].
  - rewrite candidate_push_candidate. case_decide; subst; cbn; [|lia].
    rewrite candidate_None by (apply Hout; lia). reflexivity.
  - change (candidate (set_phase Registration s) c) with (candidate s c). lia.
  - change (candidate (set_phase Voting s) c) with (candidate s c). lia.
  - change (candidate (set_phase Ended s) c) with (candidate s c). lia.
  - change (candidate (register (msg_sender ctx) s) c) with (candidate s c). lia.
  - rewrite candidate_cast_vote. case_decide; subst; cbn; lia.
Qed.

Lemma voters_for_length_cons c tx txs :
  Z.of_nat (length (voters_for c (tx :: txs))) =
    Z.of_nat (length (voters_for c [tx])) + Z.of_nat (length (voters_for c txs)).
Proof.
  rewrite !voters_for_cons. destruct (voter_for c tx); cbn [length voters_for omap list_omap]; lia.
Qed.

Lemma voteCount_replay c txs : ∀ s,
  ids_dense s →
  voteCount (candidate (replay s txs) c) =
    voteCount (candidate s c) + Z.of_nat (length (voters_for c (successful s txs))).
Proof.
  induction txs as [|tx txs IH]; intros s Hs; [cbn; lia|].
  rewrite replay_cons, successful_cons.
  rewrite IH, voteCount_transact by auto using ids_dense_transact.
  destruct (succeeds s tx) eqn:E.
  - rewrite (voters_for_length_cons c tx (successful _ _)). lia.
  - rewrite (transact_fail _ _ E). lia.
Qed.

Lemma sumZ_app l1 l2 : sumZ (l1 ++ l2) = sumZ l1 + sumZ l2.
Proof. unfold sumZ. induction l1 as [|x l1 IH]; cbn; [reflexivity|]. rewrite IH. lia. Qed.

(** Adding one at a single index adds one to the sum, when the index occurs. *)
Lemma sumZ_bump (f : Z → Z) (i : Z) (l : list Z) :
  NoDup l →
  sumZ ((λ j, if decide (i = j) then f j + 1 else f j) <$> l) =
    sumZ (f <$> l) + (if decide (i ∈ l) then 1 else 0).
Proof.
  unfold sumZ. induction 1 as [|j l Hj Hnd IH]; [reflexivity|].
  cbn [fmap list_fmap foldr] in *. rewrite IH.
  repeat case_decide; subst; try lia;
    repeat match goal with
           | H : _ ∈ _ :: _ |- _ => apply elem_of_cons in H as [?|?]
           | H : ¬ _ ∈ _ :: _ |- _ => rewrite elem_of_cons in H
           end; subst; tauto.
Qed.

Lemma voters_length_cons tx txs :
  Z.of_nat (length (voters (tx :: txs))) =
    Z.of_nat (length (voters [tx])) + Z.of_nat (length (voters txs)).
Proof.
  rewrite !voters_cons. destruct (voter tx); cbn [length voters omap list_omap]; lia.
Qed.

Lemma tally_transact s tx :
  ids_dense s →
  tally (transact s tx) =
    tally s + (if succeeds s tx then Z.of_nat (length (voters [tx])) else 0).
Proof.
  intros Hs. destruct (transact_spec s tx) as [[-> Hstep]|[-> ->]]; [|lia].
  inversion Hstep; subst; rewrite voters_cons; unfold voter;
    cbn [tx_call tx_ctx voters omap list_omap length].
  - unfold tally. rewrite snapshot_push_candidate, fmap_app, sumZ_app by done.
    cbn. lia.
  - change (tally (set_phase Registration s)) with (tally s). lia.
  - change (tally (set_phase Voting s)) with (tally s). lia.
  - change (tally (set_phase Ended s)) with (tally s). lia.
  - change (tally (register (msg_sender ctx) s)) with (tally s). lia.
  - unfold tally, snapshot. rewrite <- !list_fmap_compose.
    change (candidatesCount (cast_vote (msg_sender ctx) _candidateId s))
      with (candidatesCount s).
    rewrite (list_fmap_ext (voteCount ∘ candidate (cast_vote _ _candidateId s))
               (λ j, if decide (_candidateId = j)
                     then (voteCount ∘ candidate s) j + 1
                     else (voteCount ∘ candidate s) j)).
    + rewrite sumZ_bump by apply NoDup_seqZ.
      rewrite decide_True by (apply elem_of_seqZ; lia). reflexivity.
    + intros k j _. cbn. rewrite candidate_cast_vote. by case_decide; subst.
Qed.

Lemma tally_replay txs : ∀ s,
  ids_dense s →
  tally (replay s txs) = tally s + Z.of_nat (length (voters (successful s txs))).
Proof.
  induction txs as [|tx txs IH]; intros s Hs; [cbn; lia|].
  rewrite replay_cons, successful_cons.
  rewrite IH, tally_transact by auto using ids_dense_transact.
  destruct (succeeds s tx) eqn:E.
  - rewrite (voters_length_cons tx (successful _ _)). lia.
  - rewrite (transact_fail _ _ E). lia.
Qed.

(** C2, counterexample. In the sample history voter 2 has voted and the
    election has been ended; a further vote of theirs at time 170 fails on the
    phase, which is checked first. *)
Lemma second_vote_after_end_InvalidPhase :
  ¬ second_vote_AlreadyVoted ∧
  voted (replay sample_deployed sample_history) 2 = true ∧
  failure (vote 1 {| msg_sender := 2; block_timestamp := 170 |}
             (replay sample_deployed sample_history)) = Some InvalidPhase.
Proof.
  split; [|split; vm_compute; reflexivity].
  intros H.
  specialize (H sample_deployed sample_history
                {| msg_sender := 2; block_timestamp := 170 |} 1 sample_deployment).
  vm_compute in H. specialize (H eq_refl). discriminate H.
Qed.

(** C2, amended. In every state reached from a deployment, each candidate's
    [voteCount] is the number of successful [vote] calls that targeted its id,
    which is a number of distinct voters since no voter has two successful
    votes; the sum of all [voteCount]s is the number of successful [vote]
    calls; the voters marked [hasVoted] are the callers of those votes.  A
    further [vote] call of a voter who has voted always fails and leaves
    storage, so every tally, unchanged; it fails with AlreadyVoted when the
    phase is still [Voting] and the block time lies in the voting window, and
    on the earlier check otherwise: InvalidPhase outside [Voting], WindowClosed
    outside the window. *)
Theorem tallies_count_successful_votes (s0 : Election) (txs : list Tx) :
  deployment s0 →
  let s := replay s0 txs in
  let went_through := successful s0 txs in
  (∀ c, voteCount (candidate s c) = Z.of_nat (length (voters_for c went_through))) ∧
  (∀ c, NoDup (voters_for c went_through)) ∧
  NoDup (voters went_through) ∧
  tally s = Z.of_nat (length (voters went_through)) ∧
  (∀ a, voted s a = true ↔ a ∈ voters went_through) ∧
  (∀ ctx _candidateId,
     let now := block_timestamp ctx in
     let tx := {| tx_ctx := ctx; tx_call := Vote _candidateId |} in
     voted s (msg_sender ctx) = true →
     is_Ok (vote _candidateId ctx s) = false ∧
     transact s tx = s ∧
     tally (transact s tx) = tally s ∧
     (∀ c, voteCount (candidate (transact s tx) c) = voteCount (candidate s c)) ∧
     (phase s = Voting → votingStart s ≤ now ≤ votingEnd s →
        failure (vote _candidateId ctx s) = Some AlreadyVoted) ∧
     (phase s ≠ Voting → failure (vote _candidateId ctx s) = Some InvalidPhase) ∧
     (phase s = Voting → ¬ (votingStart s ≤ now ≤ votingEnd s) →
        failure (vote _candidateId ctx s) = Some WindowClosed)).
Proof.
  intros Hs0. cbv zeta.
  pose proof (ids_dense_deployment _ Hs0) as Hdense.
  destruct (voters_replay txs s0) as (Hnd & _ & Hvoted).
  assert (Hreg : voters_registered (replay s0 txs)).
  { apply voters_registered_reachable, reachable_replay. eauto. }
  apply deployment_inv in Hs0 as (? & ? & ? & ? & ? & ? & ->).
  split; [|split; [|split; [|split; [|split]]]].
  - intros c. rewrite voteCount_replay by done.
    rewrite candidate_None by apply lookup_empty. reflexivity.
  - intros c. eapply sublist_NoDup; [exact Hnd|apply voters_for_sublist].
  - exact Hnd.
  - rewrite tally_replay by done. reflexivity.
  - intros a. rewrite Hvoted. split; [intros [H|H]; [discriminate H|exact H]|auto].
  - intros ctx i Hv.
    assert (Hfail : is_Ok (vote i ctx (replay (initialElection x x0 x1 x2 x3 x4) txs))
                    = false).
    { rewrite vote_cascade. rewrite Hv. decide_checks; reflexivity. }
    assert (Hsame : transact (replay (initialElection x x0 x1 x2 x3 x4) txs)
                      {| tx_ctx := ctx; tx_call := Vote i |}
                    = replay (initialElection x x0 x1 x2 x3 x4) txs).
    { apply transact_fail. unfold succeeds; cbn [tx_call tx_ctx dispatch].
      revert Hfail. by destruct (vote i ctx _). }
    rewrite Hsame. split; [exact Hfail|]. split; [reflexivity|].
    split; [reflexivity|]. split; [reflexivity|].
    apply Hreg in Hv as Hr.
    split; [|split]; intros; rewrite vote_cascade, ?Hv, ?Hr;
      decide_checks; try reflexivity; tauto.
Qed.

(** The sample history: one vote went through, by voter 2 for candidate 1. *)
Lemma tallies_count_successful_votes_witness :
  deployment sample_deployed ∧
  voteCount (candidate (replay sample_deployed sample_history) 1) = 1 ∧
  voters_for 1 (successful sample_deployed sample_history) = [2] ∧
  tally (replay sample_deployed sample_history) = 1.
Proof.
  split; [exact sample_deployment|].
  destruct (tallies_count_successful_votes sample_deployed sample_history
              sample_deployment) as (Hcount & _ & _ & Htally & _).
  split; [rewrite Hcount|split; [|rewrite Htally]]; vm_compute; reflexivity.
Defined.

(** ** C3: the phase only moves forward *)

Lemma occurrences_cons c tx txs :
  occurrences c (tx :: txs) =
    if decide (tx_call tx = c) then S (occurrences c txs) else occurrences c txs.
Proof. unfold occurrences. rewrite filter_cons. by case_decide. Qed.

Lemma phase_transact s tx :
  let s' := transact s tx in
  phase s' = phase s ∨
  succeeds s tx = true ∧ msg_sender (tx_ctx tx) = admin s ∧
  phase_rank (phase s') = phase_rank (phase s) + 1 ∧
  transition_source (tx_call tx) = Some (phase s).
Proof.
  cbv zeta. destruct (transact_spec s tx) as [[-> Hstep]|[-> ->]]; [|by left].
  inversion Hstep; subst; cbn [tx_call tx_ctx transition_source]; try (by left);
    right; cbn [phase set_phase];
    match goal with H : phase s = _ |- _ => rewrite H end; auto.
Qed.

Lemma phase_rank_replay txs : ∀ s,
  phase_rank (phase s) ≤ phase_rank (phase (replay s txs)).
Proof.
  induction txs as [|tx txs IH]; intros s; [reflexivity|].
  rewrite replay_cons. etrans; [|apply IH].
  destruct (phase_transact s tx) as [->|(_ & _ & -> & _)]; lia.
Qed.

Lemma phase_rank_inj p q : phase_rank p = phase_rank q → p = q.
Proof. by destruct p, q. Qed.

(** A transition goes through once at most: it needs its source phase, and
    leaves it for good. *)
Lemma transition_at_most_once c p txs : ∀ s,
  transition_source c = Some p →
  Z.of_nat (occurrences c (successful s txs)) ≤
    (if decide (phase_rank (phase s) ≤ phase_rank p) then 1 else 0).
Proof.
  induction txs as [|tx txs IH]; intros s Hc.
  { cbn. case_decide; lia. }
  rewrite successful_cons. specialize (IH (transact s tx) Hc).
  destruct (succeeds s tx) eqn:E; [|by rewrite (transact_fail _ _ E) in IH].
  rewrite occurrences_cons.
  destruct (phase_transact s tx) as [Hsame|(_ & _ & Hrank & Hsrc)].
  - rewrite Hsame in IH. destruct (decide (tx_call tx = c)) as [Htx|Htx]; [|exact IH].
    exfalso. apply transact_step in E. destruct tx as [ctx call].
    cbn [tx_call] in Htx. subst call.
    destruct c; try discriminate Hc; inversion E;
      match goal with
      | H : set_phase _ _ = transact _ _ |- _ => rewrite <- H in Hsame
      end; cbn [phase set_phase] in Hsame; congruence.
  - rewrite Hrank in IH. destruct (decide (tx_call tx = c)) as [Htx|Htx].
    + rewrite Htx in Hsrc. assert (p = phase s) as -> by congruence.
      rewrite decide_False in IH by lia. rewrite decide_True by lia. lia.
    + repeat case_decide; lia.
Qed.

Lemma ended_is_terminal s tx : phase s = Ended → succeeds s tx = false.
Proof.
  intros Hp. destruct (succeeds s tx) eqn:E; [|done].
  apply transact_step in E. inversion E; congruence.
Qed.

Lemma ended_replay txs : ∀ s,
  phase s = Ended → replay s txs = s ∧ successful s txs = [].
Proof.
  induction txs as [|tx txs IH]; intros s Hp; [done|].
  rewrite replay_cons, successful_cons.
  rewrite (ended_is_terminal s tx Hp), (transact_fail s tx (ended_is_terminal s tx Hp)).
  by apply IH.
Qed.

(** C3, counterexample. After the sample history the election is [Ended];
    [endElection] called by 5, who is not the admin, fails with AccessDenied:
    the caller is checked before the phase. *)
Lemma wrong_phase_non_admin_AccessDenied :
  ¬ wrong_phase_InvalidPhase ∧
  phase (replay sample_deployed sample_history) = Ended ∧
  failure (endElection {| msg_sender := 5; block_timestamp := 170 |}
             (replay sample_deployed sample_history)) = Some AccessDenied.
Proof.
  split; [|split; vm_compute; reflexivity].
  intros H.
  destruct (H {| msg_sender := 5; block_timestamp := 170 |}
              (replay sample_deployed sample_history)) as (_ & _ & Hend).
  vm_compute in Hend. discriminate Hend. discriminate.
Qed.

(** C3, amended. From any state and over any sequence of transactions the
    phase only moves forward along Created, Registration, Voting, Ended: a
    transaction leaves the phase as it is or moves it to the next one, and it
    moves only by the admin's [startRegistration] from [Created],
    [startVoting] from [Registration] or [endElection] from [Voting].  Each of
    these succeeds only from its source phase; called by the admin from any
    other phase it fails with InvalidPhase, and called by anyone else it fails
    with AccessDenied whatever the phase.  Hence each transition goes through
    at most once in a history, and [Ended] is terminal: there every
    transaction fails and storage stays as it is. *)
Theorem phase_moves_forward (s : Election) (txs : list Tx) :
  (∀ tx, let s' := transact s tx in
     phase s' = phase s ∨
     (phase s = Created ∧ phase s' = Registration ∧ tx_call tx = StartRegistration) ∨
     (phase s = Registration ∧ phase s' = Voting ∧ tx_call tx = StartVoting) ∨
     (phase s = Voting ∧ phase s' = Ended ∧ tx_call tx = EndElection)) ∧
  (∀ ctx,
     (is_Ok (startRegistration ctx s) = true → phase s = Created) ∧
     (is_Ok (startVoting ctx s) = true → phase s = Registration) ∧
     (is_Ok (endElection ctx s) = true → phase s = Voting)) ∧
  (∀ ctx, msg_sender ctx = admin s →
     (phase s ≠ Created → failure (startRegistration ctx s) = Some InvalidPhase) ∧
     (phase s ≠ Registration → failure (startVoting ctx s) = Some InvalidPhase) ∧
     (phase s ≠ Voting → failure (endElection ctx s) = Some InvalidPhase)) ∧
  (∀ ctx, msg_sender ctx ≠ admin s →
     failure (startRegistration ctx s) = Some AccessDenied ∧
     failure (startVoting ctx s) = Some AccessDenied ∧
     failure (endElection ctx s) = Some AccessDenied) ∧
  phase_rank (phase s) ≤ phase_rank (phase (replay s txs)) ∧
  (occurrences StartRegistration (successful s txs) ≤ 1 ∧
   occurrences StartVoting (successful s txs) ≤ 1 ∧
   occurrences EndElection (successful s txs) ≤ 1)%nat ∧
  (phase s = Ended →
     (∀ tx, succeeds s tx = false) ∧ replay s txs = s ∧ successful s txs = []).
Proof.
  split; [|split; [|split; [|split; [|split; [|split]]]]].
  - intros tx. cbv zeta.
    destruct (transact_spec s tx) as [[_ Hstep]|[_ ->]]; [|by left].
    inversion Hstep; subst; cbn [tx_call phase set_phase]; auto 10.
  - intros ctx.
    rewrite startRegistration_cascade, startVoting_cascade, endElection_cascade.
    repeat split; decide_checks; cbn [is_Ok]; auto; discriminate.
  - intros ctx Hadmin.
    rewrite startRegistration_cascade, startVoting_cascade, endElection_cascade.
    repeat split; intros Hp; decide_checks; try reflexivity; contradiction.
  - intros ctx Hadmin.
    rewrite startRegistration_cascade, startVoting_cascade, endElection_cascade.
    repeat split; decide_checks; try reflexivity; contradiction.
  - apply phase_rank_replay.
  - pose proof (transition_at_most_once StartRegistration Created txs s eq_refl).
    pose proof (transition_at_most_once StartVoting Registration txs s eq_refl).
    pose proof (transition_at_most_once EndElection Voting txs s eq_refl).
    repeat case_decide; lia.
  - intros Hp. split; [intros tx; by apply ended_is_terminal|by apply ended_replay].
Qed.

(** The sample history moves through all four phases, each transition once. *)
Example sample_phases :
  phase sample_deployed = Created ∧
  phase (replay sample_deployed (take 3 sample_history)) = Registration ∧
  phase (replay sample_deployed (take 7 sample_history)) = Voting ∧
  phase (replay sample_deployed sample_history) = Ended ∧
  occurrences StartRegistration (successful sample_deployed sample_history) = 1%nat ∧
  occurrences StartVoting (successful sample_deployed sample_history) = 1%nat ∧
  occurrences EndElection (successful sample_deployed sample_history) = 1%nat.
Proof. vm_compute. auto 10. Qed.

(** Scenarios B to F, transaction by transaction: which of the sample
    history's calls go through and how the others fail. *)
Example sample_outcomes :
  let outcome s tx := failure (dispatch (tx_call tx) (tx_ctx tx) s) in
  let at_ k := replay sample_deployed (take k sample_history) in
  succeeds sample_deployed <$> take 1 sample_history = [true] ∧
  snapshot (at_ 2%nat) = [ {| id := 1; name := "Alice"; voteCount := 0 |};
                           {| id := 2; name := "Bob"; voteCount := 0 |} ] ∧
  outcome (at_ 4%nat) (mkTx 2 6 RegisterVoter) = Some AlreadyRegistered ∧
  succeeds (at_ 6%nat) (mkTx 1 10 StartVoting) = true ∧
  snapshot (at_ 8%nat) = [ {| id := 1; name := "Alice"; voteCount := 1 |};
                           {| id := 2; name := "Bob"; voteCount := 0 |} ] ∧
  voted (at_ 8%nat) 2 = true ∧
  outcome (at_ 8%nat) (mkTx 2 151 (Vote 1)) = Some AlreadyVoted ∧
  outcome (at_ 8%nat) (mkTx 3 152 (Vote 2)) = Some NotRegistered ∧
  outcome (at_ 8%nat) (mkTx 4 153 (Vote 9)) = Some InvalidCandidate ∧
  outcome (at_ 8%nat) (mkTx 5 160 EndElection) = Some AccessDenied ∧
  succeeds (at_ 8%nat) (mkTx 1 161 EndElection) = true ∧
  outcome (at_ 13%nat) (mkTx 1 162 (AddCandidate "Carol")) = Some InvalidPhase ∧
  getAllCandidates {| msg_sender := 7; block_timestamp := 200 |} (at_ 14%nat)
    = Ok (snapshot (at_ 8%nat), at_ 14%nat, []).
Proof. vm_compute. auto 20. Qed.

(** * Further properties of the contracts and of the front end *)

(** ** [addCandidate] *)

(** X1. [addCandidate] goes through exactly when the caller is the admin, the
    phase is [Created], the name is not empty and the count is below the
    largest [uint256]; the caller is checked first (AccessDenied), then the
    phase (InvalidPhase), then the name (InvalidInput).  On success the count
    is one more, the new candidate sits under the new count with that name and
    no votes, and nothing else changes. *)
Theorem addCandidate_checks_then_appends (_name : string) (ctx : Ctx) (s : Election) :
  let n := candidatesCount s in
  (is_Ok (addCandidate _name ctx s) = true ↔
     msg_sender ctx = admin s ∧ phase s = Created ∧ _name ≠ "" ∧ n < MAX_UINT256) ∧
  (msg_sender ctx ≠ admin s → failure (addCandidate _name ctx s) = Some AccessDenied) ∧
  (msg_sender ctx = admin s → phase s ≠ Created →
     failure (addCandidate _name ctx s) = Some InvalidPhase) ∧
  (msg_sender ctx = admin s → phase s = Created → _name = "" →
     failure (addCandidate _name ctx s) = Some InvalidInput) ∧
  (∀ u s' ev, addCandidate _name ctx s = Ok (u, s', ev) →
     candidatesCount s' = n + 1 ∧
     candidate s' (n + 1) = {| id := n + 1; name := _name; voteCount := 0 |} ∧
     (∀ j, j ≠ n + 1 → candidate s' j = candidate s j) ∧
     isRegisteredVoter s' = isRegisteredVoter s ∧ hasVoted s' = hasVoted s ∧
     phase s' = phase s ∧ same_settings s s' ∧
     ev = [CandidateAdded (n + 1) _name]).
Proof.
  cbv zeta. split; [|split; [|split; [|split]]].
  - rewrite addCandidate_cascade. split.
    + decide_checks; cbn [is_Ok]; try discriminate. intros _. repeat split; auto; lia.
    + intros (? & ? & ? & ?). decide_checks; cbn [is_Ok]; try reflexivity;
        try contradiction; lia.
  - intros. rewrite addCandidate_cascade. decide_checks; tauto.
  - intros. rewrite addCandidate_cascade. decide_checks; tauto.
  - intros. rewrite addCandidate_cascade. decide_checks; tauto.
  - intros u s' ev (_ & -> & ->)%addCandidate_Ok_inv.
    rewrite candidate_push_candidate, decide_True by reflexivity.
    repeat split. intros j Hj. rewrite candidate_push_candidate, decide_False; congruence.
Qed.

(** ** [endElection] *)

Lemma endElection_Ok_inv ctx s u s' ev :
  endElection ctx s = Ok (u, s', ev) →
  msg_sender ctx = admin s ∧ phase s = Voting ∧
  s' = set_phase Ended s ∧ ev = [PhaseChanged Ended; ElectionEnded].
Proof.
  rewrite endElection_cascade. decide_checks; try discriminate.
  intros [= <- <- <-]. auto.
Qed.

(** X2. Called by the admin, [endElection] goes through exactly when the
    phase is [Voting], whatever the block time: inside, before or after the
    voting window.  It announces the new phase and the end, changes nothing
    but the phase, and is final: from then on every transaction aborts and
    storage stays as it is. *)
Theorem endElection_by_admin (ctx : Ctx) (s : Election) :
  msg_sender ctx = admin s →
  (is_Ok (endElection ctx s) = true ↔ phase s = Voting) ∧
  (phase s ≠ Voting → failure (endElection ctx s) = Some InvalidPhase) ∧
  (∀ now, endElection {| msg_sender := msg_sender ctx; block_timestamp := now |} s
            = endElection ctx s) ∧
  (∀ u s' ev, endElection ctx s = Ok (u, s', ev) →
     phase s' = Ended ∧ same_ballots s s' ∧ same_settings s s' ∧
     ev = [PhaseChanged Ended; ElectionEnded] ∧
     ∀ txs, replay s' txs = s' ∧ successful s' txs = []).
Proof.
  intros Hadmin. split; [|split; [|split]].
  - rewrite endElection_cascade. split.
    + decide_checks; cbn [is_Ok]; try discriminate; auto.
    + intros ?. decide_checks; cbn [is_Ok]; try reflexivity; contradiction.
  - intros. rewrite endElection_cascade. decide_checks; tauto.
  - intros now. rewrite !endElection_cascade. reflexivity.
  - intros u s' ev (_ & _ & -> & ->)%endElection_Ok_inv.
    repeat split; by apply ended_replay.
Qed.

(** The sample history: the admin ends the election at time 161, well before
    [votingEnd = 300]. *)
Lemma endElection_by_admin_witness :
  let s := replay sample_deployed (take 12 sample_history) in
  let ctx := {| msg_sender := 1; block_timestamp := 161 |} in
  msg_sender ctx = admin s ∧ block_timestamp ctx < votingEnd s ∧
  is_Ok (endElection ctx s) = true.
Proof.
  cbv zeta. split; [reflexivity|]. split; [reflexivity|].
  destruct (endElection_by_admin {| msg_sender := 1; block_timestamp := 161 |}
              (replay sample_deployed (take 12 sample_history)) eq_refl) as (Hiff & _).
  apply Hiff. reflexivity.
Defined.

(** ** What is fixed at creation *)

Lemma same_settings_refl s : same_settings s s.
Proof. by repeat split. Qed.

Lemma same_settings_trans s1 s2 s3 :
  same_settings s1 s2 → same_settings s2 s3 → same_settings s1 s3.
Proof. unfold same_settings. intuition congruence. Qed.

Lemma same_settings_transact s tx : same_settings s (transact s tx).
Proof.
  destruct (transact_spec s tx) as [[_ Hstep]|[_ ->]]; [|apply same_settings_refl].
  inversion Hstep; by repeat split.
Qed.

Lemma same_settings_replay txs : ∀ s, same_settings s (replay s txs).
Proof.
  induction txs as [|tx txs IH]; intros s; [apply same_settings_refl|].
  rewrite replay_cons. eapply same_settings_trans; [apply same_settings_transact|apply IH].
Qed.

(** X3. No transaction and no sequence of transactions changes the admin,
    the title, the description or any of the four time bounds: whoever calls
    and whatever the outcome, they stay as they were, and [getTimeWindows]
    keeps returning the same four values, changing nothing itself. *)
Theorem settings_are_fixed (s : Election) (txs : list Tx) :
  admin (replay s txs) = admin s ∧
  title (replay s txs) = title s ∧
  description (replay s txs) = description s ∧
  (∀ ctx, getTimeWindows ctx (replay s txs) =
     Ok ((registrationStart s, registrationEnd s, votingStart s, votingEnd s),
         replay s txs, [])).
Proof.
  destruct (same_settings_replay txs s) as (Ha & Ht & Hd & H1 & H2 & H3 & H4).
  repeat split; try assumption.
  intros ctx. cbv [getTimeWindows cbind sload creturn]. cbn [app].
  by rewrite H1, H2, H3, H4.
Qed.

(** X4. An election deployed at block time [now] with [uint256] durations
    keeps, through every history, windows that are ordered and meet at one
    instant: [registrationStart = now <= registrationEnd = votingStart <=
    votingEnd <= 2^256 - 1]. *)
Theorem windows_ordered_and_adjacent (_admin : address) (_title _description : string)
    (_registrationDuration _votingDuration : uint256) (ctx : Ctx) (s0 : Election)
    (ev : list Event) (txs : list Tx) :
  0 ≤ _registrationDuration → 0 ≤ _votingDuration →
  constructor _admin _title _description _registrationDuration _votingDuration ctx
    zeroElection = Ok (tt, s0, ev) →
  let s := replay s0 txs in
  registrationStart s = block_timestamp ctx ∧
  registrationStart s ≤ registrationEnd s ∧
  registrationEnd s = votingStart s ∧
  votingStart s ≤ votingEnd s ∧
  votingEnd s ≤ MAX_UINT256 ∧
  votingEnd s - registrationStart s = _registrationDuration + _votingDuration.
Proof.
  intros Hrd Hvd. rewrite constructor_cascade. cbv zeta.
  repeat (case_bool_decide; cbn [negb]; try discriminate). intros [= <- <-].
  destruct (same_settings_replay txs
              (initialElection _admin _title _description _registrationDuration
                 _votingDuration (block_timestamp ctx)))
    as (_ & _ & _ & -> & -> & -> & ->).
  cbn [initialElection registrationStart registrationEnd votingStart votingEnd].
  repeat split; lia.
Qed.

(** The sample deployment: the windows [[0,100]] and [[100,300]] still meet
    at 100 after the whole sample history. *)
Lemma windows_ordered_and_adjacent_witness :
  registrationEnd (replay sample_deployed sample_history)
    = votingStart (replay sample_deployed sample_history).
Proof.
  destruct (windows_ordered_and_adjacent 1 "Board" "Annual vote" 100 200
              {| msg_sender := 9; block_timestamp := 0 |} sample_deployed []
              sample_history) as (_ & _ & H & _);
    [lia|lia|vm_compute; reflexivity|exact H].
Defined.

(** ** Who did what, and when *)

(** A transaction that went through in a history went through in the state
    some part of the history had led to. *)
Lemma successful_elem tx txs : ∀ s,
  tx ∈ successful s txs →
  ∃ txs1 txs2, txs = txs1 ++ tx :: txs2 ∧ succeeds (replay s txs1) tx = true.
Proof.
  induction txs as [|tx' txs IH]; intros s Hin; [by apply elem_of_nil in Hin|].
  rewrite successful_cons in Hin. destruct (succeeds s tx') eqn:E.
  - apply elem_of_cons in Hin as [->|Hin].
    + by exists [], txs.
    + apply IH in Hin as (txs1 & txs2 & -> & Hok). by exists (tx' :: txs1), txs2.
  - apply IH in Hin as (txs1 & txs2 & -> & Hok). exists (tx' :: txs1), txs2.
    split; [done|]. by rewrite replay_cons, (transact_fail _ _ E).
Qed.

Lemma candidatesCount_transact_mono s tx :
  candidatesCount s ≤ candidatesCount (transact s tx).
Proof.
  destruct (transact_spec s tx) as [[_ Hstep]|[_ ->]]; [|lia].
  inversion Hstep; cbn; lia.
Qed.

Lemma candidatesCount_replay_mono txs : ∀ s,
  candidatesCount s ≤ candidatesCount (replay s txs).
Proof.
  induction txs as [|tx txs IH]; intros s; [reflexivity|].
  rewrite replay_cons. etrans; [apply candidatesCount_transact_mono|apply IH].
Qed.

(** X5. In any history, every [addCandidate], [startRegistration],
    [startVoting] and [endElection] that went through was sent by the admin:
    nobody else ever adds a candidate or moves the phase. *)
Theorem only_admin_administers (s : Election) (txs : list Tx) (tx : Tx) :
  tx ∈ successful s txs → admin_only (tx_call tx) = true →
  msg_sender (tx_ctx tx) = admin s.
Proof.
  intros (txs1 & txs2 & -> & Hok)%successful_elem Hcall.
  destruct (same_settings_replay txs1 s) as (<- & _).
  apply transact_step in Hok. inversion Hok; subst; cbn in Hcall; done.
Qed.

(** The sample history: its [startVoting] went through, sent by admin 1. *)
Lemma only_admin_administers_witness :
  mkTx 1 10 StartVoting ∈ successful sample_deployed sample_history ∧
  msg_sender (tx_ctx (mkTx 1 10 StartVoting)) = admin sample_deployed.
Proof.
  assert (H : mkTx 1 10 StartVoting ∈ successful sample_deployed sample_history).
  { vm_compute. do 5 apply list_elem_of_further. apply list_elem_of_here. }
  split; [exact H|].
  exact (only_admin_administers sample_deployed sample_history _ H eq_refl).
Defined.

(** X6. In any history, every [registerVoter] that went through was mined at
    a block time inside [[registrationStart, registrationEnd]], and every
    [vote] that went through at a block time inside [[votingStart, votingEnd]]
    and for a candidate id that exists at the end of the history. *)
Theorem successful_calls_in_window (s : Election) (txs : list Tx) (tx : Tx) :
  tx ∈ successful s txs →
  let now := block_timestamp (tx_ctx tx) in
  (tx_call tx = RegisterVoter → registrationStart s ≤ now ≤ registrationEnd s) ∧
  (∀ c, tx_call tx = Vote c →
     votingStart s ≤ now ≤ votingEnd s ∧ 1 ≤ c ∧ c ≤ candidatesCount (replay s txs)).
Proof.
  intros (txs1 & txs2 & -> & Hok)%successful_elem. cbv zeta.
  destruct (same_settings_replay txs1 s) as (_ & _ & _ & <- & <- & <- & <-).
  pose proof (candidatesCount_replay_mono (tx :: txs2) (replay s txs1)) as Hmono.
  rewrite <- replay_app in Hmono.
  apply transact_step in Hok. split.
  - intros Hcall. inversion Hok; subst; cbn in Hcall; try discriminate. done.
  - intros c Hcall. inversion Hok; subst; cbn in Hcall; try discriminate.
    injection Hcall as ->. split; [done|]. split; lia.
Qed.

(** The sample history: voter 2's vote of time 150 lies in [[100, 300]]. *)
Lemma successful_calls_in_window_witness :
  mkTx 2 150 (Vote 1) ∈ successful sample_deployed sample_history ∧
  votingStart sample_deployed ≤ 150 ≤ votingEnd sample_deployed.
Proof.
  assert (H : mkTx 2 150 (Vote 1) ∈ successful sample_deployed sample_history).
  { vm_compute. do 6 apply list_elem_of_further. apply list_elem_of_here. }
  split; [exact H|].
  destruct (successful_calls_in_window sample_deployed sample_history _ H) as [_ Hv].
  destruct (Hv 1 eq_refl) as [Hw _]. exact Hw.
Defined.

(** ** What each phase closes for good *)

Lemma phase_rank_transact s tx :
  phase_rank (phase s) ≤ phase_rank (phase (transact s tx)).
Proof. apply (phase_rank_replay [tx]). Qed.

Lemma not_Created_rank p : p ≠ Created ↔ 1 ≤ phase_rank p.
Proof. destruct p; cbn; split; intros; try done; lia. Qed.

(** Outside [Created] a transaction leaves every candidate's id and name, and
    the count, as they are. *)
Lemma candidates_frozen_transact s tx :
  phase s ≠ Created →
  candidatesCount (transact s tx) = candidatesCount s ∧
  (∀ i, id (candidate (transact s tx) i) = id (candidate s i) ∧
        name (candidate (transact s tx) i) = name (candidate s i)) ∧
  (∀ _name, tx_call tx = AddCandidate _name → succeeds s tx = false).
Proof.
  intros Hp. destruct (transact_spec s tx) as [[E Hstep]|[E ->]].
  - inversion Hstep; subst; try congruence; cbn [tx_call];
      (split; [reflexivity|]); (split; [|intros; discriminate]); try done.
    intros i. rewrite candidate_cast_vote. by case_decide; subst.
  - by repeat split.
Qed.

(** X7. Once the phase has left [Created] the list of candidates is closed:
    over any further history the count and every candidate's id and name stay
    as they are, and every [addCandidate], whoever sends it, aborts. *)
Theorem candidates_closed_after_Created (s : Election) (txs : list Tx) :
  phase s ≠ Created →
  candidatesCount (replay s txs) = candidatesCount s ∧
  (∀ i, id (candidate (replay s txs) i) = id (candidate s i) ∧
        name (candidate (replay s txs) i) = name (candidate s i)) ∧
  added_names (successful s txs) = [] ∧
  (∀ ctx _name, is_Ok (addCandidate _name ctx (replay s txs)) = false).
Proof.
  intros Hp. split; [|split; [|split]].
  - revert s Hp. induction txs as [|tx txs IH]; intros s Hp; [done|].
    rewrite replay_cons, IH.
    + by apply candidates_frozen_transact.
    + apply not_Created_rank. apply not_Created_rank in Hp.
      pose proof (phase_rank_transact s tx). lia.
  - revert s Hp. induction txs as [|tx txs IH]; intros s Hp i; [done|].
    rewrite replay_cons. destruct (IH (transact s tx)) with (i := i) as [-> ->].
    + apply not_Created_rank. apply not_Created_rank in Hp.
      pose proof (phase_rank_transact s tx). lia.
    + by apply candidates_frozen_transact.
  - revert s Hp. induction txs as [|tx txs IH]; intros s Hp; [done|].
    rewrite successful_cons.
    destruct (candidates_frozen_transact s tx Hp) as (_ & _ & Hadd).
    assert (Hp' : phase (transact s tx) ≠ Created).
    { apply not_Created_rank. apply not_Created_rank in Hp.
      pose proof (phase_rank_transact s tx). lia. }
    destruct (succeeds s tx) eqn:E; [|rewrite (transact_fail _ _ E) in *; by apply IH].
    rewrite added_names_cons, (IH _ Hp'), app_nil_r.
    unfold added_names. cbn. destruct (tx_call tx) eqn:Hc; try reflexivity.
    specialize (Hadd _ eq_refl). congruence.
  - intros ctx _name. rewrite addCandidate_cascade.
    assert (phase (replay s txs) ≠ Created).
    { apply not_Created_rank. apply not_Created_rank in Hp.
      pose proof (phase_rank_replay txs s). lia. }
    decide_checks; try reflexivity. contradiction.
Qed.

(** The sample history: with registration open the candidates stay Alice and
    Bob, whatever follows. *)
Lemma candidates_closed_after_Created_witness :
  let s := replay sample_deployed (take 3 sample_history) in
  phase s ≠ Created ∧
  candidatesCount (replay s (drop 3 sample_history)) = candidatesCount s.
Proof.
  cbv zeta.
  assert (H : phase (replay sample_deployed (take 3 sample_history)) ≠ Created)
    by discriminate.
  split; [exact H|].
  destruct (candidates_closed_after_Created _ (drop 3 sample_history) H) as [Hn _].
  exact Hn.
Defined.

(** X8. A candidate once added keeps its id and its name through every
    history, and its [voteCount] never goes down; a [hasVoted] flag that is
    set stays set, and the count of candidates never goes down. *)
Theorem candidates_keep_identity (s : Election) (txs : list Tx) (i : uint256) :
  i ≤ candidatesCount s →
  id (candidate (replay s txs) i) = id (candidate s i) ∧
  name (candidate (replay s txs) i) = name (candidate s i) ∧
  voteCount (candidate s i) ≤ voteCount (candidate (replay s txs) i) ∧
  candidatesCount s ≤ candidatesCount (replay s txs) ∧
  (∀ a, voted s a = true → voted (replay s txs) a = true).
Proof.
  intros Hi. split; [|split; [|split; [|split]]];
    [| | |apply candidatesCount_replay_mono|].
  1-3: revert s Hi; induction txs as [|tx txs IH]; intros s Hi; [done|];
    rewrite replay_cons;
    pose proof (candidatesCount_transact_mono s tx) as Hmono;
    specialize (IH (transact s tx) ltac:(lia));
    destruct (transact_spec s tx) as [[_ Hstep]|[_ Heq]];
      [|by rewrite Heq in *];
    first [rewrite IH | etrans; [|exact IH]];
    inversion Hstep; subst; try reflexivity;
    rewrite ?candidate_push_candidate, ?candidate_cast_vote;
    repeat case_decide; subst; cbn; try reflexivity; lia.
  - intros a Ha. apply voters_replay. auto.
Qed.

(** The sample history: Alice keeps id 1 and her name. *)
Lemma candidates_keep_identity_witness :
  let s := replay sample_deployed (take 2 sample_history) in
  1 ≤ candidatesCount s ∧
  name (candidate (replay s (drop 2 sample_history)) 1) = "Alice".
Proof.
  cbv zeta.
  assert (H : 1 ≤ candidatesCount (replay sample_deployed (take 2 sample_history)))
    by (vm_compute; discriminate).
  split; [exact H|].
  destruct (candidates_keep_identity _ (drop 2 sample_history) 1 H) as (_ & Hn & _).
  rewrite Hn. reflexivity.
Defined.

Lemma untouched_ballots_step s tx s' :
  untouched_ballots s → step s tx s' → untouched_ballots s'.
Proof.
  intros [Hv Hr] Hstep.
  inversion Hstep as [? ? ? Hp| ? ? Hp| ? ? Hp| ? ? Hp| ? Hp| ? ? Hp]; subst;
    rewrite Hp in *; cbn [phase_rank] in *; unfold untouched_ballots;
    cbn [phase set_phase push_candidate cast_vote register set_candidates
         set_candidatesCount set_hasVoted set_isRegisteredVoter];
    rewrite ?Hp; cbn [phase_rank].
  - split; [|intros _; by apply Hr].
    intros _. destruct Hv as [Hv1 Hv2]; [lia|]. split; [exact Hv1|].
    intros c. rewrite candidate_push_candidate. case_decide; [reflexivity|apply Hv2].
  - split; [|discriminate]. intros _. apply Hv. lia.
  - split; [lia|discriminate].
  - split; [lia|discriminate].
  - split; [|discriminate]. intros _. apply Hv. lia.
  - split; [lia|discriminate].
Qed.

Lemma untouched_ballots_reachable s : reachable s → untouched_ballots s.
Proof.
  apply (reachable_ind_step untouched_ballots); [|apply untouched_ballots_step].
  intros s0 (? & ? & ? & ? & ? & ? & ->)%deployment_inv.
  split; [intros _; split|intros _]; intros; reflexivity.
Qed.

Lemma sumZ_zeros (l : list Z) : (∀ x, x ∈ l → x = 0) → sumZ l = 0.
Proof.
  unfold sumZ. induction l as [|x l IH]; intros H; [reflexivity|].
  cbn. rewrite IH by (intros y Hy; apply H; by constructor).
  rewrite (H x) by constructor. reflexivity.
Qed.

(** X9. In every state reached from a deployment, as long as the phase is
    [Created] or [Registration] nobody is marked as having voted and every
    tally is zero; and as long as it is [Created] nobody is registered. *)
Theorem no_ballots_before_voting (s : Election) :
  reachable s →
  (phase s = Created ∨ phase s = Registration →
     (∀ a, voted s a = false) ∧ (∀ c, voteCount (candidate s c) = 0) ∧ tally s = 0) ∧
  (phase s = Created → ∀ a, registered s a = false).
Proof.
  intros [Hv Hr]%untouched_ballots_reachable. split; [|exact Hr].
  intros Hp. destruct Hv as [Hv1 Hv2]; [destruct Hp as [-> | ->]; cbn; lia|].
  split; [exact Hv1|]. split; [exact Hv2|].
  unfold tally, snapshot. rewrite <- list_fmap_compose.
  apply sumZ_zeros. intros x (c & -> & _)%list_elem_of_fmap. apply Hv2.
Qed.

(** The sample history after registration: voters are registered, none has
    voted. *)
Lemma no_ballots_before_voting_witness :
  let s := replay sample_deployed (take 6 sample_history) in
  reachable s ∧ registered s 2 = true ∧ voted s 2 = false ∧ tally s = 0.
Proof.
  cbv zeta.
  assert (H : reachable (replay sample_deployed (take 6 sample_history))).
  { apply reachable_replay. eexists _, _. split; [apply sample_deployment|reflexivity]. }
  split; [exact H|]. split; [reflexivity|].
  destruct (no_ballots_before_voting _ H) as [Hv _].
  destruct (Hv (or_intror eq_refl)) as (Hv1 & _ & Ht). split; [apply Hv1|exact Ht].
Defined.

Lemma registered_frozen_transact s tx a :
  2 ≤ phase_rank (phase s) → registered (transact s tx) a = registered s a.
Proof.
  intros Hp. destruct (transact_spec s tx) as [[_ Hstep]|[_ ->]]; [|done].
  inversion Hstep as [? ? ? Hq| ? ? Hq| ? ? Hq| ? ? Hq| ? Hq| ? ? Hq]; subst;
    try reflexivity.
  rewrite Hq in Hp. cbn in Hp. lia.
Qed.

(** X10. Once the phase is [Voting] or [Ended] the roll of voters is closed:
    over any further history no [isRegisteredVoter] flag changes, and every
    [registerVoter] aborts. *)
Theorem roll_closed_after_registration (s : Election) (txs : list Tx) :
  phase s = Voting ∨ phase s = Ended →
  (∀ a, registered (replay s txs) a = registered s a) ∧
  registrants (successful s txs) = [] ∧
  (∀ ctx, is_Ok (registerVoter ctx (replay s txs)) = false).
Proof.
  intros Hp. assert (Hr : 2 ≤ phase_rank (phase s)) by (destruct Hp as [-> | ->]; cbn; lia).
  clear Hp. split; [|split].
  - revert s Hr. induction txs as [|tx txs IH]; intros s Hr a; [done|].
    rewrite replay_cons, IH by (pose proof (phase_rank_transact s tx); lia).
    by apply registered_frozen_transact.
  - revert s Hr. induction txs as [|tx txs IH]; intros s Hr; [done|].
    rewrite successful_cons.
    assert (Hr' : 2 ≤ phase_rank (phase (transact s tx)))
      by (pose proof (phase_rank_transact s tx); lia).
    destruct (succeeds s tx) eqn:E; [|rewrite (transact_fail _ _ E) in *; by apply IH].
    rewrite registrants_cons, (IH _ Hr').
    apply transact_step in E.
    inversion E as [? ? ? Hq| ? ? Hq| ? ? Hq| ? ? Hq| ? Hq| ? ? Hq]; subst;
      cbn [tx_call]; try reflexivity.
    rewrite Hq in Hr. cbn in Hr. lia.
  - intros ctx. rewrite registerVoter_cascade.
    pose proof (phase_rank_replay txs s).
    decide_checks; try reflexivity.
    match goal with H : phase _ = Registration |- _ => rewrite H in * end.
    cbn in *. lia.
Qed.

(** The sample history: once the vote is open the roll stays as it is. *)
Lemma roll_closed_after_registration_witness :
  let s := replay sample_deployed (take 7 sample_history) in
  phase s = Voting ∧
  registered (replay s (drop 7 sample_history)) 3 = registered s 3.
Proof.
  cbv zeta.
  destruct (roll_closed_after_registration
              (replay sample_deployed (take 7 sample_history))
              (drop 7 sample_history) (or_introl eq_refl)) as [H _].
  split; [reflexivity|apply H].
Defined.

(** Each voter registers once: the callers of the successful registrations
    of a history are distinct and were unregistered before. *)
Lemma registrants_replay txs : ∀ s,
  NoDup (registrants (successful s txs)) ∧
  (∀ a, a ∈ registrants (successful s txs) → registered s a = false).
Proof.
  induction txs as [|tx txs IH]; intros s.
  { cbn. split; [constructor|]. by intros a ?%elem_of_nil. }
  rewrite successful_cons. destruct (IH (transact s tx)) as (Hnd & Hfresh).
  assert (Hkeep : ∀ a, registered (transact s tx) a = false → registered s a = false).
  { intros a Ha. destruct (registered s a) eqn:E; [|done].
    apply (registered_transact s tx) in E. congruence. }
  destruct (succeeds s tx) eqn:E; [|by rewrite (transact_fail _ _ E) in *].
  rewrite registrants_cons. pose proof (transact_step _ _ E) as Hstep.
  destruct tx as [ctx call]. destruct call; cbn [tx_call tx_ctx];
    try (split; [exact Hnd|]; intros a Ha; by apply Hkeep, Hfresh).
  inversion Hstep as [| | | |? Hq Hw Hnew [Hctx] Hs'|]. rewrite <- Hs' in *.
  split.
  - constructor; [|done]. intros Hin%Hfresh.
    rewrite registered_register, decide_True in Hin by reflexivity. discriminate.
  - intros a [->|Hin]%elem_of_cons; [exact Hnew|by apply Hkeep, Hfresh].
Qed.

(** X11. In every state reached from a deployment the votes counted never
    exceed the voters registered: the callers of the successful votes are
    distinct callers of successful registrations, each of whom registered
    once, so the sum of all [voteCount]s is at most the number of registered
    voters. *)
Theorem votes_at_most_registered (s0 : Election) (txs : list Tx) :
  deployment s0 →
  let s := replay s0 txs in
  let went_through := successful s0 txs in
  (∀ a, a ∈ voters went_through → a ∈ registrants went_through) ∧
  NoDup (registrants went_through) ∧
  (0 ≤ tally s ≤ Z.of_nat (length (registrants went_through))) ∧
  (∀ c, 0 ≤ voteCount (candidate s c) ≤ tally s).
Proof.
  intros Hs0. cbv zeta.
  pose proof (ids_dense_deployment _ Hs0) as Hdense.
  destruct (voters_replay txs s0) as (Hnd & _ & Hvoted).
  destruct (registrants_replay txs s0) as (Hndr & _).
  assert (Hreg : voters_registered (replay s0 txs)).
  { apply voters_registered_reachable, reachable_replay. eauto. }
  pose proof (registered_replay_iff txs s0) as Hrr.
  assert (Hsub : ∀ a, a ∈ voters (successful s0 txs) → a ∈ registrants (successful s0 txs)).
  { intros a Ha. assert (Hv : voted (replay s0 txs) a = true) by (apply Hvoted; auto).
    apply Hreg, Hrr in Hv as [Hv|Hv]; [|done].
    apply deployment_inv in Hs0 as (? & ? & ? & ? & ? & ? & ->). discriminate Hv. }
  assert (Hinit : ∀ c, voteCount (candidate s0 c) = 0 ∧ tally s0 = 0).
  { apply deployment_inv in Hs0 as (? & ? & ? & ? & ? & ? & ->). by split. }
  split; [exact Hsub|]. split; [exact Hndr|]. split.
  - rewrite tally_replay by done. destruct (Hinit 0) as [_ ->].
    pose proof (submseteq_length _ _ (NoDup_submseteq _ _ Hnd Hsub)). lia.
  - intros c. rewrite voteCount_replay, tally_replay by done.
    destruct (Hinit c) as [-> ->].
    pose proof (sublist_length _ _ (voters_for_sublist c (successful s0 txs))). lia.
Qed.

(** The sample history: one vote counted, two voters registered. *)
Lemma votes_at_most_registered_witness :
  deployment sample_deployed ∧
  tally (replay sample_deployed sample_history) ≤ 2.
Proof.
  split; [exact sample_deployment|].
  destruct (votes_at_most_registered sample_deployed sample_history sample_deployment)
    as (_ & _ & [_ H] & _).
  etrans; [exact H|]. vm_compute. discriminate.
Defined.

(** ** The event log mirrors storage *)

Lemma events_of_fail s tx : succeeds s tx = false → events_of s tx = [].
Proof.
  unfold succeeds, events_of. by destruct (dispatch _ _ _) as [[[? ?] ?]| | |].
Qed.

Lemma events_of_step s tx s' : step s tx s' → events_of s tx = announcement s tx.
Proof.
  destruct 1; unfold events_of, announcement, dispatch; cbn [tx_ctx tx_call]; cascade;
    decide_checks; try reflexivity; try congruence; try lia.
Qed.

Lemma history_log_cons s tx txs :
  history_log s (tx :: txs) = events_of s tx ++ history_log (transact s tx) txs.
Proof. reflexivity. Qed.

Lemma vote_calls_cons tx txs :
  vote_calls (tx :: txs) = vote_calls [tx] ++ vote_calls txs.
Proof. unfold vote_calls. cbn. by destruct (tx_call tx). Qed.

(** The [VoteCast] events of a history are its successful [vote] calls, in
    order. *)
Lemma votes_cast_log txs : ∀ s,
  votes_cast (history_log s txs) = vote_calls (successful s txs).
Proof.
  induction txs as [|tx txs IH]; intros s; [reflexivity|].
  rewrite history_log_cons, successful_cons. unfold votes_cast at 1.
  rewrite omap_app. fold (votes_cast (history_log (transact s tx) txs)). rewrite IH.
  destruct (transact_spec s tx) as [[-> Hstep]|[E ->]].
  - rewrite (events_of_step _ _ _ Hstep), (vote_calls_cons tx). f_equal.
    unfold announcement, vote_calls. cbn. by destruct (tx_call tx).
  - by rewrite E, (events_of_fail _ _ E).
Qed.

Lemma voters_vote_calls txs : voters txs = (vote_calls txs).*1.
Proof.
  induction txs as [|tx txs IH]; [reflexivity|].
  rewrite voters_cons, vote_calls_cons, fmap_app, <- IH.
  unfold voter, vote_calls. cbn. by destruct (tx_call tx).
Qed.

Lemma voters_for_vote_calls c txs :
  voters_for c txs = (filter (λ p, p.2 = c) (vote_calls txs)).*1.
Proof.
  induction txs as [|tx txs IH]; [reflexivity|].
  rewrite voters_for_cons, vote_calls_cons, filter_app, fmap_app, <- IH.
  unfold voter_for, vote_calls. cbn. destruct (tx_call tx); try reflexivity.
  rewrite filter_cons. cbn [snd]. by case_decide.
Qed.

(** X12. The [VoteCast] events of a history from a deployment are exactly its
    successful votes, in order, and they account for storage: no voter occurs
    twice, a voter is marked [hasVoted] exactly when an event names them, each
    candidate's [voteCount] is the number of events that name its id, and the
    sum of all [voteCount]s is the number of events. *)
Theorem log_accounts_for_votes (s0 : Election) (txs : list Tx) :
  deployment s0 →
  let s := replay s0 txs in
  let cast := votes_cast (history_log s0 txs) in
  cast = vote_calls (successful s0 txs) ∧
  NoDup cast.*1 ∧
  (∀ a, voted s a = true ↔ a ∈ cast.*1) ∧
  (∀ c, voteCount (candidate s c) = Z.of_nat (length (filter (λ p, p.2 = c) cast))) ∧
  tally s = Z.of_nat (length cast).
Proof.
  intros Hs0. cbv zeta. rewrite votes_cast_log.
  pose proof (ids_dense_deployment _ Hs0) as Hdense.
  destruct (voters_replay txs s0) as (Hnd & _ & Hvoted).
  rewrite voters_vote_calls in Hnd, Hvoted.
  apply deployment_inv in Hs0 as (? & ? & ? & ? & ? & ? & ->).
  split; [reflexivity|]. split; [exact Hnd|]. split; [|split].
  - intros a. rewrite Hvoted. split; [intros [H|H]; [discriminate H|exact H]|auto].
  - intros c. rewrite voteCount_replay, voters_for_vote_calls, length_fmap by done.
    rewrite candidate_None by apply lookup_empty. reflexivity.
  - rewrite tally_replay, voters_vote_calls, length_fmap by done. reflexivity.
Qed.

(** The sample history: one [VoteCast], of voter 2 for candidate 1. *)
Lemma log_accounts_for_votes_witness :
  deployment sample_deployed ∧
  votes_cast (history_log sample_deployed sample_history) = [(2, 1)] ∧
  tally (replay sample_deployed sample_history) = 1.
Proof.
  split; [exact sample_deployment|]. split; [vm_compute; reflexivity|].
  destruct (log_accounts_for_votes sample_deployed sample_history sample_deployment)
    as (_ & _ & _ & _ & H).
  rewrite H. vm_compute. reflexivity.
Defined.

Lemma id_and_name_transact s tx :
  ids_dense s →
  id_and_name <$> snapshot (transact s tx) =
    (id_and_name <$> snapshot s) ++ candidates_added (events_of s tx).
Proof.
  intros Hs. destruct (transact_spec s tx) as [[_ Hstep]|[E ->]];
    [|by rewrite (events_of_fail _ _ E), app_nil_r].
  rewrite (events_of_step _ _ _ Hstep).
  inversion Hstep; subst; unfold announcement; cbn [tx_call candidates_added omap list_omap];
    try (by rewrite app_nil_r).
  - rewrite snapshot_push_candidate, fmap_app by done. reflexivity.
  - rewrite app_nil_r. unfold snapshot. rewrite <- !list_fmap_compose.
    apply list_fmap_ext. intros k j _. unfold id_and_name. cbn.
    rewrite candidate_cast_vote. by case_decide; subst.
Qed.

Lemma id_and_name_replay txs : ∀ s,
  ids_dense s →
  id_and_name <$> snapshot (replay s txs) =
    (id_and_name <$> snapshot s) ++ candidates_added (history_log s txs).
Proof.
  induction txs as [|tx txs IH]; intros s Hs; [by rewrite app_nil_r|].
  rewrite replay_cons, history_log_cons, IH by auto using ids_dense_transact.
  rewrite id_and_name_transact by done. unfold candidates_added.
  by rewrite omap_app, app_assoc.
Qed.

(** X13. The [CandidateAdded] events of a history from a deployment list the
    candidates as [getAllCandidates] returns them: the same ids and names, in
    the same order, the ids being 1, 2, ... without a gap.  [getAllCandidates]
    returns them as long as its array can be allocated: up to [2^64 - 1]
    candidates. *)
Theorem log_lists_candidates (s0 : Election) (txs : list Tx) :
  deployment s0 →
  let s := replay s0 txs in
  let added := candidates_added (history_log s0 txs) in
  added = id_and_name <$> snapshot s ∧
  added.*1 = seqZ 1 (candidatesCount s) ∧
  added.*2 = added_names (successful s0 txs) ∧
  (candidatesCount s ≤ MAX_ARRAY_LENGTH →
     ∀ ctx, ∃ cands, getAllCandidates ctx s = Ok (cands, s, []) ∧
                     added = id_and_name <$> cands).
Proof.
  intros Hs0. cbv zeta.
  assert (Hs : ids_dense (replay s0 txs)).
  { apply ids_dense_reachable, reachable_replay. eauto. }
  assert (Hadded : candidates_added (history_log s0 txs)
                   = id_and_name <$> snapshot (replay s0 txs)).
  { rewrite id_and_name_replay by by apply ids_dense_deployment.
    apply deployment_inv in Hs0 as (? & ? & ? & ? & ? & ? & ->). reflexivity. }
  split; [exact Hadded|]. rewrite Hadded. split; [|split].
  - rewrite <- list_fmap_compose. rewrite <- snapshot_ids by done. reflexivity.
  - rewrite <- list_fmap_compose.
    rewrite snapshot_names_replay by by apply ids_dense_deployment.
    apply deployment_inv in Hs0 as (? & ? & ? & ? & ? & ? & ->). reflexivity.
  - intros Hlen ctx. exists (snapshot (replay s0 txs)). split; [|reflexivity].
    apply getAllCandidates_snapshot. destruct Hs as [? _]. lia.
Qed.

(** The sample history: Alice was announced as 1, Bob as 2. *)
Lemma log_lists_candidates_witness :
  deployment sample_deployed ∧
  candidates_added (history_log sample_deployed sample_history)
    = [(1, "Alice"); (2, "Bob")] ∧
  id_and_name <$> snapshot (replay sample_deployed sample_history)
    = [(1, "Alice"); (2, "Bob")].
Proof.
  split; [exact sample_deployment|]. split; [vm_compute; reflexivity|].
  destruct (log_lists_candidates sample_deployed sample_history sample_deployment)
    as (H & _).
  rewrite <- H. vm_compute. reflexivity.
Defined.

Lemma phases_announced_transact s tx :
  phases_announced (events_of s tx) =
    if decide (phase (transact s tx) = phase s) then [] else [phase (transact s tx)].
Proof.
  destruct (transact_spec s tx) as [[_ Hstep]|[E ->]];
    [|by rewrite (events_of_fail _ _ E), decide_True].
  rewrite (events_of_step _ _ _ Hstep).
  inversion Hstep as [? ? ? Hp| ? ? Hp| ? ? Hp| ? ? Hp| ? Hp| ? ? Hp]; subst;
    unfold announcement; cbn [tx_call phases_announced omap list_omap phase set_phase
      push_candidate cast_vote register set_candidates set_candidatesCount set_hasVoted
      set_isRegisteredVoter];
    rewrite ?Hp; by case_decide.
Qed.

Lemma ends_announced_transact s tx :
  ends_announced (events_of s tx) =
    if decide (phase (transact s tx) = Ended ∧ phase s ≠ Ended) then 1%nat else 0%nat.
Proof.
  destruct (transact_spec s tx) as [[_ Hstep]|[E ->]].
  - rewrite (events_of_step _ _ _ Hstep).
    inversion Hstep as [? ? ? Hp| ? ? Hp| ? ? Hp| ? ? Hp| ? Hp| ? ? Hp]; subst;
      unfold announcement, ends_announced;
      cbn [tx_call omap list_omap length phase set_phase
        push_candidate cast_vote register set_candidates set_candidatesCount set_hasVoted
        set_isRegisteredVoter];
      rewrite ?Hp; case_decide as Hd; try reflexivity;
      first [destruct Hd as [Hd _]; discriminate Hd | exfalso; apply Hd; by split].
  - rewrite (events_of_fail _ _ E). case_decide as Hd; [|reflexivity]. by destruct Hd.
Qed.

(** The [PhaseChanged] events of a history lead, one phase at a time, from the
    phase it starts in to the phase it ends in. *)
Lemma phases_announced_log txs : ∀ s,
  phase s :: phases_announced (history_log s txs) =
    phases_between (phase s) (phase (replay s txs)) ∧
  Z.of_nat (ends_announced (history_log s txs)) =
    (if decide (phase (replay s txs) = Ended) then 1 else 0) -
    (if decide (phase s = Ended) then 1 else 0).
Proof.
  induction txs as [|tx txs IH]; intros s.
  { change (replay s []) with s. split; [by destruct (phase s); vm_compute|].
    cbn. case_decide; lia. }
  rewrite replay_cons, history_log_cons. destruct (IH (transact s tx)) as [IH1 IH2].
  unfold phases_announced, ends_announced. rewrite !omap_app, length_app.
  fold (phases_announced (events_of s tx)) (ends_announced (events_of s tx))
       (phases_announced (history_log (transact s tx) txs))
       (ends_announced (history_log (transact s tx) txs)).
  rewrite phases_announced_transact, ends_announced_transact.
  pose proof (phase_rank_replay txs (transact s tx)) as Hle.
  destruct (phase_transact s tx) as [Hsame|(_ & _ & Hnext & _)].
  - rewrite Hsame in *. rewrite decide_True by done. split; [exact IH1|].
    rewrite decide_False by (intros [? ?]; done). lia.
  - rewrite decide_False by (intros Heq; rewrite Heq in Hnext; lia).
    cbn [app]. split.
    + revert Hnext Hle IH1.
      generalize (phases_announced (history_log (transact s tx) txs)).
      unfold phases_between, all_phases.
      destruct (phase s), (phase (transact s tx)), (phase (replay (transact s tx) txs));
        cbn [phase_rank]; intros ? ? IH1; try lia;
        vm_compute in IH1; vm_compute; congruence.
    + rewrite Nat2Z.inj_add, IH2. revert Hnext Hle.
      destruct (phase s), (phase (transact s tx)), (phase (replay (transact s tx) txs));
        cbn; intros; try lia; repeat case_decide; try lia; try done;
        repeat match goal with H : _ ∧ _ |- _ => destruct H end; try done;
        try (exfalso; naive_solver).
Qed.

(** X14. The [PhaseChanged] events of a history from a deployment announce
    [Registration], [Voting] and [Ended] in this order, each once at most, and
    as many of them as the phase has advanced: the last one announced is the
    phase [getPhase] returns.  [ElectionEnded] is in the log, once, exactly
    when the phase is [Ended]. *)
Theorem log_announces_phases (s0 : Election) (txs : list Tx) :
  deployment s0 →
  let s := replay s0 txs in
  let log := history_log s0 txs in
  phases_announced log = take (Z.to_nat (phase_rank (phase s))) [Registration; Voting; Ended] ∧
  (∀ ctx, getPhase ctx s = Ok (default Created (last (phases_announced log)), s, [])) ∧
  ends_announced log = (if decide (phase s = Ended) then 1 else 0)%nat.
Proof.
  intros Hs0. cbv zeta.
  destruct (phases_announced_log txs s0) as [H1 H2].
  apply deployment_inv in Hs0 as (? & ? & ? & ? & ? & ? & ->).
  cbn [phase initialElection] in H1, H2. unfold getPhase, sload.
  revert H1 H2.
  generalize (phases_announced (history_log (initialElection x x0 x1 x2 x3 x4) txs))
             (ends_announced (history_log (initialElection x x0 x1 x2 x3 x4) txs)).
  destruct (phase (replay (initialElection x x0 x1 x2 x3 x4) txs));
    intros l n H1 H2; vm_compute in H1; injection H1 as ->;
    (split; [reflexivity|split; [reflexivity|]]);
    repeat case_decide; try done; lia.
Qed.

(** The sample history: all three phases were announced, and the end. *)
Lemma log_announces_phases_witness :
  deployment sample_deployed ∧
  phases_announced (history_log sample_deployed sample_history)
    = [Registration; Voting; Ended] ∧
  ends_announced (history_log sample_deployed sample_history) = 1%nat.
Proof.
  split; [exact sample_deployment|].
  destruct (log_announces_phases sample_deployed sample_history sample_deployment)
    as (H1 & _ & H2).
  split; [rewrite H1|rewrite H2]; vm_compute; reflexivity.
Defined.

Lemma voters_announced_log txs : ∀ s,
  voters_announced (history_log s txs) = registrants (successful s txs).
Proof.
  induction txs as [|tx txs IH]; intros s; [reflexivity|].
  rewrite history_log_cons, successful_cons. unfold voters_announced at 1.
  rewrite omap_app. fold (voters_announced (history_log (transact s tx) txs)). rewrite IH.
  destruct (transact_spec s tx) as [[-> Hstep]|[E ->]].
  - rewrite (events_of_step _ _ _ Hstep), registrants_cons.
    unfold announcement. by destruct (tx_call tx).
  - by rewrite E, (events_of_fail _ _ E).
Qed.

(** X15. The [VoterRegistered] events of a history from a deployment are the
    roll of voters: an address is registered exactly when an event names it,
    and no address is named twice. *)
Theorem log_is_the_roll (s0 : Election) (txs : list Tx) :
  deployment s0 →
  let s := replay s0 txs in
  let roll := voters_announced (history_log s0 txs) in
  NoDup roll ∧
  (∀ a, registered s a = true ↔ a ∈ roll) ∧
  (∀ a, voted s a = true → a ∈ roll).
Proof.
  intros Hs0. cbv zeta. rewrite voters_announced_log.
  destruct (registrants_replay txs s0) as (Hnd & _).
  pose proof (registered_replay_iff txs s0) as Hrr.
  assert (Hreg : voters_registered (replay s0 txs)).
  { apply voters_registered_reachable, reachable_replay. eauto. }
  apply deployment_inv in Hs0 as (? & ? & ? & ? & ? & ? & ->).
  assert (Hroll : ∀ a, registered (replay (initialElection x x0 x1 x2 x3 x4) txs) a = true ↔
                       a ∈ registrants (successful (initialElection x x0 x1 x2 x3 x4) txs)).
  { intros a. rewrite Hrr. split; [intros [H|H]; [discriminate H|exact H]|auto]. }
  split; [exact Hnd|]. split; [exact Hroll|].
  intros a Ha. by apply Hroll, Hreg.
Qed.

(** The sample history: voters 2 and 4 were announced. *)
Lemma log_is_the_roll_witness :
  deployment sample_deployed ∧
  voters_announced (history_log sample_deployed sample_history) = [2; 4] ∧
  registered (replay sample_deployed sample_history) 4 = true.
Proof.
  split; [exact sample_deployment|]. split; [vm_compute; reflexivity|].
  destruct (log_is_the_roll sample_deployed sample_history sample_deployment)
    as (_ & H & _).
  apply H. vm_compute. apply list_elem_of_further, list_elem_of_here.
Defined.

(** ** The factory's registry *)

Lemma apply_creation_spec f c :
  (creates f c = true ∧ electionCount f + 1 ≤ MAX_UINT256 ∧
   ∃ e, apply_creation f c = record_election (cr_at c) e f) ∨
  (creates f c = false ∧ apply_creation f c = f).
Proof.
  unfold creates, apply_creation, create. rewrite createElection_cascade. cbv zeta.
  repeat (case_bool_decide; cbn [negb is_Ok]); try (right; split; reflexivity).
  left. split; [reflexivity|]. split; [done|]. eauto.
Qed.

Lemma registry_record_election at_ e f :
  0 ≤ electionCount f →
  registry (record_election at_ e f) = registry f ++ [at_].
Proof.
  intros Hn. unfold registry. cbn [electionCount elections record_election].
  rewrite seqZ_app, fmap_app by lia. f_equal.
  - apply list_fmap_ext. intros k i (-> & ?)%lookup_seqZ.
    rewrite mapping_get_insert, decide_False by lia. reflexivity.
  - rewrite (seqZ_cons _ 1), seqZ_nil by lia. cbn [fmap list_fmap].
    rewrite mapping_get_insert, decide_True by lia. reflexivity.
Qed.

Lemma registry_dense_apply f c :
  registry_dense f →
  registry_dense (apply_creation f c) ∧
  registry (apply_creation f c) = registry f ++ (if creates f c then [cr_at c] else []).
Proof.
  intros (Hn & Hout & Hdep).
  destruct (apply_creation_spec f c) as [(-> & Hmax & e & ->)|(-> & ->)];
    [|by rewrite app_nil_r].
  rewrite registry_record_election by lia. split; [|reflexivity].
  split; [cbn; lia|]. split.
  - intros i Hi. cbn in *. rewrite lookup_insert_ne by lia. apply Hout. lia.
  - intros a Ha. rewrite registry_record_election in Ha by lia.
    cbn [deployed record_election]. rewrite lookup_insert.
    case_decide; [eauto|]. apply Hdep.
    apply elem_of_app in Ha as [Ha|Ha%list_elem_of_singleton]; [done|congruence].
Qed.

Lemma registry_replay cs : ∀ f,
  registry_dense f →
  registry_dense (replay_creations f cs) ∧
  registry (replay_creations f cs) = registry f ++ created f cs.
Proof.
  induction cs as [|c cs IH]; intros f Hf; [by rewrite app_nil_r|].
  destruct (registry_dense_apply f c Hf) as [Hf' Hreg].
  destruct (IH _ Hf') as [Hd Hr]. split; [exact Hd|].
  change (replay_creations f (c :: cs)) with (replay_creations (apply_creation f c) cs).
  rewrite Hr, Hreg. cbn [created].
  destruct (apply_creation_spec f c) as [(-> & _)|(-> & ->)].
  - by rewrite <- app_assoc.
  - by rewrite app_nil_r.
Qed.

Lemma length_registry f : length (registry f) = Z.to_nat (electionCount f).
Proof. unfold registry. by rewrite length_fmap, length_seqZ. Qed.

(** X16. After any sequence of [createElection] calls on a fresh factory,
    [electionCount] is the number of creations that went through and the ids
    1 to [electionCount] hold their addresses in the order they were created:
    [getElectionAddress(i)] returns the [i]-th of them, and for every other
    id, zero included, it returns the zero address without failing.  Further
    creations add to the registry and never change an id already given. *)
Theorem factory_ids_sequential (cs more : list Creation) :
  let f := replay_creations zeroFactory cs in
  registry f = created zeroFactory cs ∧
  electionCount f = Z.of_nat (length (created zeroFactory cs)) ∧
  (∀ i a, created zeroFactory cs !! i = Some a →
     ∀ ctx, getElectionAddress (Z.of_nat i + 1) ctx f = Ok (a, f, [])) ∧
  (∀ i, ¬ (1 ≤ i ≤ electionCount f) →
     ∀ ctx, getElectionAddress i ctx f = Ok (0, f, [])) ∧
  (∀ a, a ∈ registry f → is_Some (deployed f !! a)) ∧
  registry (replay_creations f more) = registry f ++ created f more.
Proof.
  cbv zeta.
  assert (H0 : registry_dense zeroFactory).
  { pose proof MAX_UINT256_pos. split; [cbn; lia|]. split; [intros; apply lookup_empty|].
    intros a Ha. by apply elem_of_nil in Ha. }
  destruct (registry_replay cs zeroFactory H0) as [Hd Hr].
  change (registry zeroFactory) with (@nil Z) in Hr. cbn [app] in Hr.
  destruct Hd as (Hn & Hout & Hdep).
  assert (Hcount : electionCount (replay_creations zeroFactory cs)
                   = Z.of_nat (length (created zeroFactory cs))).
  { rewrite <- Hr, length_registry. lia. }
  split; [exact Hr|]. split; [exact Hcount|]. split; [|split; [|split]].
  - intros i a Hi ctx. unfold getElectionAddress, sload. do 3 f_equal.
    rewrite <- Hr in Hi. unfold registry in Hi.
    apply list_lookup_fmap_Some in Hi as (k & -> & (-> & _)%lookup_seqZ).
    f_equal. lia.
  - intros i Hi ctx. unfold getElectionAddress, sload, mapping_get.
    by rewrite Hout.
  - exact Hdep.
  - by apply registry_replay.
Qed.

(** ** The read helpers agree *)

(** X17. In a state reached from a deployment, [getAllCandidates] and
    [getCandidate] show the same candidates: when [getAllCandidates] returns,
    its list has [candidatesCount] entries, entry [i - 1] is what
    [getCandidate(i)] returns for every [i] from 1 to the count, and no two
    entries carry the same id. *)
Theorem read_helpers_agree (s : Election) (ctx : Ctx) (cands : list Candidate)
    (s' : Election) (ev : list Event) :
  reachable s →
  getAllCandidates ctx s = Ok (cands, s', ev) →
  s' = s ∧ ev = [] ∧
  length cands = Z.to_nat (candidatesCount s) ∧
  (∀ i, 1 ≤ i ≤ candidatesCount s →
     ∀ ctx', ∃ c, cands !! Z.to_nat (i - 1) = Some c ∧ id c = i ∧
                  getCandidate i ctx' s = Ok (c, s, [])) ∧
  NoDup (id <$> cands).
Proof.
  intros Hs%ids_dense_reachable Hget. pose proof Hs as (Hn & Hin & _).
  pose proof (getAllCandidates_Ok_length _ _ _ Hget) as Hlen.
  rewrite getAllCandidates_snapshot in Hget by lia. injection Hget as <- <- <-.
  split; [reflexivity|]. split; [reflexivity|]. split; [apply length_snapshot|]. split.
  - intros i Hi ctx'. exists (candidate s i). split; [|split; [by apply Hin|reflexivity]].
    unfold snapshot. rewrite list_lookup_fmap, lookup_seqZ_lt by lia.
    cbn. f_equal. f_equal. lia.
  - rewrite snapshot_ids by done. apply NoDup_seqZ.
Qed.

(** The sample history: the list has Alice first, who is candidate 1. *)
Lemma read_helpers_agree_witness :
  let s := replay sample_deployed sample_history in
  ∃ cands, reachable s ∧
    getAllCandidates {| msg_sender := 7; block_timestamp := 200 |} s = Ok (cands, s, []) ∧
    length cands = 2%nat.
Proof.
  cbv zeta. eexists. split; [exact sample_reachable|].
  assert (H : getAllCandidates {| msg_sender := 7; block_timestamp := 200 |}
                (replay sample_deployed sample_history)
              = Ok (snapshot (replay sample_deployed sample_history),
                    replay sample_deployed sample_history, []))
    by (vm_compute; reflexivity).
  split; [exact H|].
  destruct (read_helpers_agree _ _ _ _ _ sample_reachable H) as (_ & _ & Hlen & _).
  rewrite Hlen. reflexivity.
Defined.

(** ** The front end against the contract *)

(** X18. [phaseName] names each phase the contract returns by the name of its
    [enum] constant, so different phases get different names and none is
    shown as Unknown; every other number, and [NaN], is named Unknown. *)
Theorem phaseName_decodes_phase (p q : Phase) (x : JsNumber) :
  phaseName (Num (Phase_to_uint8 Created)) = "Created" ∧
  phaseName (Num (Phase_to_uint8 Registration)) = "Registration" ∧
  phaseName (Num (Phase_to_uint8 Voting)) = "Voting" ∧
  phaseName (Num (Phase_to_uint8 Ended)) = "Ended" ∧
  phaseName (Num (Phase_to_uint8 p)) ≠ "Unknown" ∧
  (phaseName (Num (Phase_to_uint8 p)) = phaseName (Num (Phase_to_uint8 q)) → p = q) ∧
  (phaseName x = "Unknown" ↔ ∀ r, x ≠ Num (Phase_to_uint8 r)).
Proof.
  repeat split; try reflexivity.
  - by destruct p.
  - by destruct p, q.
  - intros Hx r ->. by destruct r.
  - intros Hx. destruct x as [|n]; [reflexivity|].
    assert (Hn : n ≠ 0 ∧ n ≠ 1 ∧ n ≠ 2 ∧ n ≠ 3).
    { repeat split; intros ->;
        [apply (Hx Created)|apply (Hx Registration)|apply (Hx Voting)|apply (Hx Ended)];
        reflexivity. }
    destruct n as [|k|k]; [lia| |reflexivity].
    destruct k as [[]|[]|]; try reflexivity; lia.
Qed.

(** X19. Every option the vote page offers can be voted for.  When the
    candidates come from [getAllCandidates] in a state reached from a
    deployment, with ids small enough for JavaScript numbers to hold them,
    there is one option per candidate, the form's guard lets each one through
    and sends it, and the id sent lies in [[1, candidatesCount]]: [vote] never
    rejects it as an invalid candidate. *)
Theorem vote_page_options_are_valid (s : Election) (ctx : Ctx) (cands : list Candidate)
    (s' : Election) (ev : list Event) :
  reachable s →
  candidatesCount s ≤ MAX_SAFE_INTEGER →
  getAllCandidates ctx s = Ok (cands, s', ev) →
  length (candidateSelect_values cands) = Z.to_nat (candidatesCount s) ∧
  (∀ v, v ∈ candidateSelect_values cands →
     ∃ i, v = Num i ∧ 1 ≤ i ≤ candidatesCount s ∧ i ≤ MAX_SAFE_INTEGER ∧
          voteForm_submit v = SendVote v ∧
          ∀ ctx', failure (vote i ctx' s) ≠ Some InvalidCandidate) ∧
  (∀ i, 1 ≤ i ≤ candidatesCount s → Num i ∈ candidateSelect_values cands).
Proof.
  intros Hs%ids_dense_reachable Hsafe Hget. pose proof Hs as (Hn & Hin & _).
  pose proof (getAllCandidates_Ok_length _ _ _ Hget) as Hlen.
  rewrite getAllCandidates_snapshot in Hget by lia. injection Hget as <- <- <-.
  assert (Hvals : candidateSelect_values (snapshot s) = Num <$> seqZ 1 (candidatesCount s)).
  { unfold candidateSelect_values. rewrite <- (snapshot_ids s Hs).
    by rewrite <- list_fmap_compose. }
  rewrite Hvals. split; [by rewrite length_fmap, length_seqZ|]. split.
  - intros v (i & -> & Hi%elem_of_seqZ)%list_elem_of_fmap.
    exists i. split; [reflexivity|]. split; [lia|]. split; [lia|]. split.
    + unfold voteForm_submit, js_not_number. rewrite bool_decide_eq_false_2 by lia.
      reflexivity.
    + intros ctx'. rewrite vote_cascade.
      decide_checks; cbn [failure]; try lia; try discriminate; by vm_compute.
  - intros i Hi. apply list_elem_of_fmap. exists i. split; [done|].
    apply elem_of_seqZ. lia.
Qed.

(** The sample history: the page offers 1 and 2. *)
Lemma vote_page_options_are_valid_witness :
  let s := replay sample_deployed sample_history in
  reachable s ∧
  candidateSelect_values (snapshot s) = [Num 1; Num 2] ∧
  voteForm_submit (Num 2) = SendVote (Num 2).
Proof.
  cbv zeta. split; [exact sample_reachable|]. split; [vm_compute; reflexivity|].
  assert (H : getAllCandidates {| msg_sender := 7; block_timestamp := 200 |}
                (replay sample_deployed sample_history)
              = Ok (snapshot (replay sample_deployed sample_history),
                    replay sample_deployed sample_history, []))
    by (vm_compute; reflexivity).
  assert (Hsafe : candidatesCount (replay sample_deployed sample_history)
                  ≤ MAX_SAFE_INTEGER) by (vm_compute; discriminate).
  destruct (vote_page_options_are_valid _ _ _ _ _ sample_reachable Hsafe H)
    as (_ & Hv & Hall).
  destruct (Hv (Num 2)) as (i & Hi & _ & _ & Hsend & _).
  - apply Hall. vm_compute. split; discriminate.
  - exact Hsend.
Defined.

(** X20. The admin page refuses exactly the empty name, with an alert and no
    call, and that is the one name the contract refuses: a name the form
    sends never fails [addCandidate]'s name check, and a name the form refuses
    would have failed it for the admin in [Created]. *)
Theorem admin_page_name_check_matches (name : string) (ctx : Ctx) (s : Election) :
  (addCandidateForm_submit name = PageAlert "Candidate name cannot be empty." ↔ name = "") ∧
  (addCandidateForm_submit name = SendAddCandidate name ↔ name ≠ "") ∧
  (addCandidateForm_submit name = SendAddCandidate name →
     failure (addCandidate name ctx s) ≠ Some InvalidInput) ∧
  (msg_sender ctx = admin s → phase s = Created →
     (failure (addCandidate name ctx s) = Some InvalidInput ↔
      addCandidateForm_submit name = PageAlert "Candidate name cannot be empty.")).
Proof.
  unfold addCandidateForm_submit, js_not. rewrite addCandidate_cascade.
  repeat split; decide_checks; cbn [failure]; try discriminate; try done;
    intros; try discriminate; try done; try congruence.
Qed.

(** ** Zero durations *)

(** X21. An election created with a registration duration of zero has a
    registration window of one instant: in any history every [registerVoter]
    that went through was mined in a block stamped with the creation time.
    Likewise, with a voting duration of zero every [vote] that went through
    was mined at [votingStart]. *)
Theorem zero_duration_window_is_an_instant (_admin : address) (_title _description : string)
    (_registrationDuration _votingDuration : uint256) (ctx : Ctx) (s0 : Election)
    (ev : list Event) (txs : list Tx) (tx : Tx) :
  constructor _admin _title _description _registrationDuration _votingDuration ctx
    zeroElection = Ok (tt, s0, ev) →
  tx ∈ successful s0 txs →
  (_registrationDuration = 0 → tx_call tx = RegisterVoter →
     block_timestamp (tx_ctx tx) = block_timestamp ctx) ∧
  (_votingDuration = 0 → ∀ c, tx_call tx = Vote c →
     block_timestamp (tx_ctx tx) = block_timestamp ctx + _registrationDuration).
Proof.
  rewrite constructor_cascade. cbv zeta.
  repeat (case_bool_decide; cbn [negb]; try discriminate). intros [= <- <-].
  intros (txs1 & txs2 & -> & Hok)%successful_elem.
  destruct (same_settings_replay txs1
              (initialElection _admin _title _description _registrationDuration
                 _votingDuration (block_timestamp ctx)))
    as (_ & _ & _ & H1 & H2 & H3 & H4).
  cbn [initialElection registrationStart registrationEnd votingStart votingEnd] in *.
  apply transact_step in Hok. split.
  - intros -> Hcall. inversion Hok; subst; cbn in Hcall; try discriminate.
    cbn [tx_ctx]. lia.
  - intros -> c Hcall. inversion Hok; subst; cbn in Hcall; try discriminate.
    cbn [tx_ctx]. lia.
Qed.

(** A sample with a registration duration of zero: the registration of time
    5 went through, the one of time 6 did not. *)
Lemma zero_duration_window_is_an_instant_witness :
  mkTx 2 5 RegisterVoter ∈ successful instant_deployed instant_history ∧
  successful instant_deployed instant_history = take 3 instant_history ∧
  block_timestamp (tx_ctx (mkTx 2 5 RegisterVoter)) = 5.
Proof.
  assert (Hd : constructor 1 "Snap poll" "Yes or no" 0 50
                 {| msg_sender := 9; block_timestamp := 5 |} zeroElection
               = Ok (tt, instant_deployed, [])) by (vm_compute; reflexivity).
  assert (H : mkTx 2 5 RegisterVoter ∈ successful instant_deployed instant_history).
  { vm_compute. do 2 apply list_elem_of_further. apply list_elem_of_here. }
  split; [exact H|]. split; [vm_compute; reflexivity|].
  destruct (zero_duration_window_is_an_instant _ _ _ _ _ _ _ _ instant_history _ Hd H)
    as [Hr _].
  exact (Hr eq_refl eq_refl).
Defined.

(** ** A dead end *)

(** X22. Registration opened without a candidate is a dead end: the list of
    candidates is closed and [startVoting] requires one, so over any further
    history the phase stays [Registration], the count stays zero, and no vote
    is ever cast; voters can still register. *)
Theorem registration_without_candidates_is_stuck (s : Election) (txs : list Tx) :
  phase s = Registration → candidatesCount s = 0 →
  phase (replay s txs) = Registration ∧
  candidatesCount (replay s txs) = 0 ∧
  voters (successful s txs) = [] ∧
  (∀ tx, tx ∈ successful s txs → tx_call tx = RegisterVoter) ∧
  (∀ ctx, is_Ok (startVoting ctx (replay s txs)) = false) ∧
  (∀ ctx c, is_Ok (vote c ctx (replay s txs)) = false).
Proof.
  intros Hp Hn.
  assert (Hstep : ∀ s tx, phase s = Registration → candidatesCount s = 0 →
            phase (transact s tx) = Registration ∧ candidatesCount (transact s tx) = 0 ∧
            (succeeds s tx = true → tx_call tx = RegisterVoter)).
  { clear. intros s tx Hp Hn. destruct (transact_spec s tx) as [[-> Hstep]|[-> ->]];
      [|by repeat split].
    inversion Hstep; subst; try congruence; try lia. by repeat split. }
  assert (Hall : phase (replay s txs) = Registration ∧ candidatesCount (replay s txs) = 0 ∧
                 voters (successful s txs) = [] ∧
                 (∀ tx, tx ∈ successful s txs → tx_call tx = RegisterVoter)).
  { revert s Hp Hn. induction txs as [|tx txs IH]; intros s Hp Hn.
    { repeat split; try done. by intros tx ?%elem_of_nil. }
    destruct (Hstep s tx Hp Hn) as (Hp' & Hn' & Hcall).
    destruct (IH _ Hp' Hn') as (IH1 & IH2 & IH3 & IH4).
    rewrite replay_cons, successful_cons. split; [exact IH1|]. split; [exact IH2|].
    destruct (succeeds s tx) eqn:E; [|rewrite (transact_fail _ _ E) in *; by split].
    split.
    - rewrite voters_cons, IH3. unfold voter. by rewrite Hcall.
    - intros tx' [->|Hin]%elem_of_cons; auto. }
  destruct Hall as (H1 & H2 & H3 & H4). repeat split; try assumption.
  - intros ctx. rewrite startVoting_cascade. decide_checks; try reflexivity. lia.
  - intros ctx c. rewrite vote_cascade. decide_checks; try reflexivity. congruence.
Qed.

(** A sample: the admin opens registration first; Alice cannot be added any
    more and the vote cannot be opened. *)
Lemma registration_without_candidates_is_stuck_witness :
  let s := replay sample_deployed (take 1 stuck_history) in
  phase s = Registration ∧ candidatesCount s = 0 ∧
  phase (replay s (drop 1 stuck_history)) = Registration.
Proof.
  cbv zeta. split; [reflexivity|]. split; [reflexivity|].
  destruct (registration_without_candidates_is_stuck
              (replay sample_deployed (take 1 stuck_history)) (drop 1 stuck_history)
              eq_refl eq_refl) as [H _].
  exact H.
Defined.
